(** * py-zabbix: the trapper-protocol sender ([pyzabbix/sender.py])

    A shallow embedding of [ZabbixMetric], [ZabbixResponse] and
    [ZabbixSender], together with the parts of the Python runtime they
    rest on ([json.dumps], [struct.pack], [re], [decimal.Decimal], sockets),
    followed by the properties of the frame codec, the transport, the batch
    sender and the response aggregator.

    Conventions.  The semantics is that of Python 3.  A [str] is the list
    of its code points, a [bytes] object is a list of [byte]; integers are
    unbounded ([Z], [N]).  A call that can raise returns a [result]; code
    that also talks to the network runs in the monad [M], which threads
    the [world].  Three things come from outside and are parameters: the
    decimal-digit property of the Unicode database ([digit_value]), the
    JSON decoder applied to a reply body ([json_loads]), and what the
    peers do on each connection ([net]). *)

From Stdlib Require Import String Ascii.
From Stdlib Require Import Strings.Byte.
From Stdlib Require Import List ZArith NArith Lia Bool.
Import ListNotations.

Set Implicit Arguments.
Set Warnings "-register-all".

(* ================================================================== *)
(** * Part I.  The Python runtime the module relies on                  *)
(* ================================================================== *)

Module Py.

(** ** Text and binary data *)

Definition str := list N.
Definition bytes := list byte.

(** A literal of the source, as code points. *)
Definition u (s : string) : str := map N_of_ascii (list_ascii_of_string s).

Definition byte_of_N (n : N) : byte :=
  match Byte.of_N (n mod 256) with
  | Some b => b
  | None => x00
  end.

Definition str_eqb (a b : str) : bool :=
  if list_eq_dec N.eq_dec a b then true else false.

(** [sep.join(l)] *)
Fixpoint join (sep : str) (l : list str) : str :=
  match l with
  | [] => []
  | [x] => x
  | x :: r => x ++ sep ++ join sep r
  end.

(** ** Values *)

(** A [float]: [FFinite m e] stands for [m * 2^e]. *)
Inductive pyfloat :=
| FFinite (m e : Z)
| FInf (negative : bool)
| FNaN.

(** The Python values that reach this module from outside: the [clock]
    argument of a metric and whatever [json.loads] makes of a reply. *)
Inductive pyval :=
| PyNone
| PyBool (b : bool)
| PyInt (z : Z)
| PyFloat (f : pyfloat)
| PyStr (s : str)
| PyList (l : list pyval)
| PyDict (d : list (str * pyval)).

(** Truth value testing ([if x:]). *)
Definition truthy (v : pyval) : bool :=
  match v with
  | PyNone => false
  | PyBool b => b
  | PyInt z => negb (z =? 0)%Z
  | PyFloat (FFinite m _) => negb (m =? 0)%Z
  | PyFloat _ => true
  | PyStr s => match s with [] => false | _ => true end
  | PyList l => match l with [] => false | _ => true end
  | PyDict d => match d with [] => false | _ => true end
  end.

(** [isinstance(v, (float, int))]; [bool] is a subclass of [int]. *)
Definition isinstance_float_int (v : pyval) : bool :=
  match v with
  | PyBool _ | PyInt _ | PyFloat _ => true
  | _ => false
  end.

(** ** Exceptions *)

(** Errors of the socket layer ([socket.error], [socket.timeout], ...). *)
Inductive oserror := Errno (n : nat).

(** What decoding a reply body can raise. *)
Inductive decode_error := UnicodeDecodeError | JSONDecodeError.

Inductive exn :=
| Exception_clock                 (* Exception('Clock must be time in unixtime format') *)
| Exception_err (e : oserror)     (* Exception(err), after a failed sendall *)
| Exception_response (r : pyval)  (* Exception(response) *)
| SocketError (e : oserror)       (* raised by connect / recv *)
| BodyError (e : decode_error)    (* raised by bytes.decode / json.loads *)
| AttributeError
| TypeError
| ValueError
| OverflowError
| UnboundLocalError
| struct_error
| UnicodeEncodeError
| InvalidOperation                (* decimal.InvalidOperation *)
| DecimalOverflow.                (* decimal.Overflow *)

Inductive result (A : Type) :=
| Ok (a : A)
| Raise (e : exn).
Arguments Ok {A} a.
Arguments Raise {A} e.

Definition rbind {A B} (r : result A) (k : A -> result B) : result B :=
  match r with
  | Ok a => k a
  | Raise e => Raise e
  end.

(** [int(v)] for the classes that pass [isinstance(v, (float, int))]:
    a float is truncated towards zero, [nan] and the infinities raise. *)
Definition py_int (v : pyval) : result Z :=
  match v with
  | PyBool b => Ok (if b then 1 else 0)%Z
  | PyInt z => Ok z
  | PyFloat (FFinite m e) =>
      Ok (if (0 <=? e)%Z then m * 2 ^ e else Z.quot m (2 ^ (- e)))%Z
  | PyFloat (FInf _) => Raise OverflowError
  | PyFloat FNaN => Raise ValueError
  | _ => Raise TypeError
  end.

(** [str(z)] for an integer. *)
Fixpoint uint_str (d : Decimal.uint) : str :=
  match d with
  | Decimal.Nil => []
  | Decimal.D0 d => 48%N :: uint_str d
  | Decimal.D1 d => 49%N :: uint_str d
  | Decimal.D2 d => 50%N :: uint_str d
  | Decimal.D3 d => 51%N :: uint_str d
  | Decimal.D4 d => 52%N :: uint_str d
  | Decimal.D5 d => 53%N :: uint_str d
  | Decimal.D6 d => 54%N :: uint_str d
  | Decimal.D7 d => 55%N :: uint_str d
  | Decimal.D8 d => 56%N :: uint_str d
  | Decimal.D9 d => 57%N :: uint_str d
  end.

Definition int_str (z : Z) : str :=
  match Z.to_int z with
  | Decimal.Pos d => uint_str d
  | Decimal.Neg d => 45%N :: uint_str d
  end.

(** ** [struct]: the format [<Q] *)

Fixpoint le_bytes (k : nat) (n : N) : bytes :=
  match k with
  | O => []
  | S k' => byte_of_N (n mod 256) :: le_bytes k' (n / 256)
  end.

Fixpoint le_value (bs : bytes) : N :=
  match bs with
  | [] => 0
  | b :: r => Byte.to_N b + 256 * le_value r
  end.

(** [struct.pack('<Q', n)]: [struct.error] when [n] does not fit 64 bits. *)
Definition struct_pack_Q (n : N) : result bytes :=
  if (n <? 2 ^ 64)%N then Ok (le_bytes 8 n) else Raise struct_error.

(** [struct.unpack('<Q', bs)[0]]: [struct.error] unless [bs] has 8 bytes. *)
Definition struct_unpack_Q (bs : bytes) : result N :=
  if Nat.eqb (length bs) 8 then Ok (le_value bs) else Raise struct_error.

(** ** [str.encode("utf-8")] *)

Definition utf8_char (c : N) : option bytes :=
  (if c <? 0x80 then Some [byte_of_N c]
   else if c <? 0x800 then
     Some [byte_of_N (0xC0 + c / 64); byte_of_N (0x80 + c mod 64)]
   else if c <? 0x10000 then
     if (0xD800 <=? c) && (c <=? 0xDFFF) then None
     else Some [byte_of_N (0xE0 + c / 4096);
                byte_of_N (0x80 + (c / 64) mod 64);
                byte_of_N (0x80 + c mod 64)]
   else if c <? 0x110000 then
     Some [byte_of_N (0xF0 + c / 262144);
           byte_of_N (0x80 + (c / 4096) mod 64);
           byte_of_N (0x80 + (c / 64) mod 64);
           byte_of_N (0x80 + c mod 64)]
   else None)%N.

Fixpoint encode_utf8 (s : str) : result bytes :=
  match s with
  | [] => Ok []
  | c :: r =>
      match utf8_char c with
      | None => Raise UnicodeEncodeError
      | Some bs => rbind (encode_utf8 r) (fun rest => Ok (bs ++ rest))
      end
  end.

(** ** [json.dumps] of an object's attribute dictionary

    The defaults apply: [ensure_ascii=True], separators [', '] and [': ']. *)

Inductive attr :=
| AStr (s : str)
| AInt (z : Z).

Definition hex_digit (n : N) : N :=
  (if n <? 10 then 48 + n else 87 + n)%N.

(** ['{0:04x}'.format(n)], for [n < 0x10000]. *)
Definition hex4 (n : N) : str :=
  [hex_digit ((n / 4096) mod 16); hex_digit ((n / 256) mod 16);
   hex_digit ((n / 16) mod 16); hex_digit (n mod 16)]%N.

Definition u_escape (n : N) : str := [92; 117]%N ++ hex4 n.

(** [ESCAPE_DCT]: the short escapes, and [\u00XX] for the other controls. *)
Definition ESCAPE_DCT (c : N) : option str :=
  (if c =? 92 then Some [92; 92]
   else if c =? 34 then Some [92; 34]
   else if c =? 8 then Some [92; 98]
   else if c =? 12 then Some [92; 102]
   else if c =? 10 then Some [92; 110]
   else if c =? 13 then Some [92; 114]
   else if c =? 9 then Some [92; 116]
   else if c <? 32 then Some (u_escape c)
   else None)%N.

(** [ESCAPE_ASCII]: a backslash, a double quote, or anything outside
    the printable range from space to tilde. *)
Definition ESCAPE_ASCII (c : N) : bool :=
  ((c =? 92) || (c =? 34) || negb ((32 <=? c) && (c <=? 126)))%N.

Definition replace (c : N) : str :=
  match ESCAPE_DCT c with
  | Some s => s
  | None =>
      (if c <? 0x10000 then u_escape c
       else
         let n := c - 0x10000 in
         let s1 := N.lor 0xd800 (N.land (N.shiftr n 10) 0x3ff) in
         let s2 := N.lor 0xdc00 (N.land n 0x3ff) in
         u_escape s1 ++ u_escape s2)%N
  end.

Definition py_encode_basestring_ascii (s : str) : str :=
  [34%N] ++ flat_map (fun c => if ESCAPE_ASCII c then replace c else [c]) s
         ++ [34%N].

Definition dumps_attr (a : attr) : str :=
  match a with
  | AStr s => py_encode_basestring_ascii s
  | AInt z => int_str z
  end.

Definition dumps_item (kv : str * attr) : str :=
  py_encode_basestring_ascii (fst kv) ++ u ": " ++ dumps_attr (snd kv).

Definition json_dumps (d : list (str * attr)) : str :=
  u "{" ++ join (u ", ") (map dumps_item d) ++ u "}".

(** ** Attribute access and comparison on values *)

Fixpoint assoc (k : str) (d : list (str * pyval)) : option pyval :=
  match d with
  | [] => None
  | (k', v) :: r => if str_eqb k k' then Some v else assoc k r
  end.

(** [v.get(k)]: only a [dict] has the method. *)
Definition py_get (v : pyval) (k : str) : result pyval :=
  match v with
  | PyDict d => Ok (match assoc k d with Some x => x | None => PyNone end)
  | _ => Raise AttributeError
  end.

(** [v != s] for a string [s]. *)
Definition ne_str (v : pyval) (s : str) : bool :=
  match v with
  | PyStr s' => negb (str_eqb s' s)
  | _ => true
  end.

(** ** [range] and slices *)

(** [list(range(start, stop, step))] *)
Definition py_range (start stop step : Z) : result (list Z) :=
  (if step =? 0 then Raise ValueError
   else
     let n := if 0 <? step
              then (stop - start + step - 1) / step
              else (start - stop - step - 1) / (- step) in
     Ok (map (fun i => start + Z.of_nat i * step) (seq 0 (Z.to_nat n))))%Z.

(** [l[lo:hi]] for [0 <= lo]. *)
Definition slice {A} (l : list A) (lo hi : Z) : list A :=
  firstn (Z.to_nat (hi - lo)) (skipn (Z.to_nat lo) l).

(** ** [re]: the fragment of regular expressions the module uses

    A backtracking matcher in continuation-passing style.  Quantifiers are
    greedy and apply to single-character atoms; groups are numbered in the
    order they close, which is the order they open when none is nested. *)

Inductive atom :=
| AChar (c : N)
| ASet (cs : list N)
| ADigit.

Inductive regex :=
| REps
| RAtom (a : atom)
| ROpt (a : atom)
| RStar (a : atom)
| RSeq (r1 r2 : regex)
| RGroup (r : regex).

Section UnicodeDigits.

(** The decimal-digit property of the Unicode database (code point to
    digit value), which [\d], [int] and [Decimal] consult. *)
Variable digit_value : N -> option N.

Definition atom_matches (a : atom) (c : N) : bool :=
  match a with
  | AChar c' => (c =? c')%N
  | ASet cs => existsb (N.eqb c) cs
  | ADigit => match digit_value c with Some _ => true | None => false end
  end.

Section Matcher.
Variable R : Type.

Fixpoint star (a : atom) (s : str) (k : str -> option R) : option R :=
  match s with
  | c :: s' =>
      if atom_matches a c then
        match star a s' k with
        | Some r => Some r
        | None => k s
        end
      else k s
  | [] => k s
  end.

Fixpoint rmatch (r : regex) (s : str) (caps : list str)
    (k : str -> list str -> option R) : option R :=
  match r with
  | REps => k s caps
  | RAtom a =>
      match s with
      | c :: s' => if atom_matches a c then k s' caps else None
      | [] => None
      end
  | ROpt a =>
      match s with
      | c :: s' =>
          if atom_matches a c then
            match k s' caps with
            | Some x => Some x
            | None => k s caps
            end
          else k s caps
      | [] => k s caps
      end
  | RStar a => star a s (fun s' => k s' caps)
  | RSeq r1 r2 => rmatch r1 s caps (fun s' caps' => rmatch r2 s' caps' k)
  | RGroup r1 =>
      rmatch r1 s caps
        (fun s' caps' => k s' (caps' ++ [firstn (length s - length s') s]))
  end.

End Matcher.

(** [re.compile(r).search(s)]: the groups of the leftmost match. *)
Fixpoint search (r : regex) (s : str) : option (list str) :=
  match rmatch r s [] (fun _ caps => Some caps) with
  | Some caps => Some caps
  | None =>
      match s with
      | [] => None
      | _ :: s' => search r s'
      end
  end.

(** ** [int] and [Decimal] of a digit string *)

Fixpoint digits_value (acc : N) (s : str) : option N :=
  match s with
  | [] => Some acc
  | c :: r =>
      match digit_value c with
      | Some d => digits_value (10 * acc + d) r
      | None => None
      end
  end.

(** [int(s)] for a string of decimal digits; the empty string and
    anything that is not a digit raise [ValueError].  (Signs, blanks and
    underscores, which [int] also reads, do not occur in a group of
    digits.  The limit recent interpreters put on the length of the
    string, 4300 digits unless [sys.set_int_max_str_digits] says
    otherwise, is not modelled.) *)
Definition int_of_str (s : str) : result Z :=
  match s with
  | [] => Raise ValueError
  | _ =>
      match digits_value 0 s with
      | Some n => Ok (Z.of_N n)
      | None => Raise ValueError
      end
  end.

(** A finite, non-negative [Decimal]: [coef * 10^exp]. *)
Record Decimal := mkDec { coef : N; exp : Z }.

(** [Decimal(s)] for [s] of the shape digits, optional point, digits,
    with at least one digit; anything else raises [InvalidOperation].
    The conversion is exact. *)
Definition Decimal_of_str (s : str) : result Decimal :=
  let fix split (s : str) : str * option str :=
    match s with
    | [] => ([], None)
    | c :: r =>
        if (c =? 46)%N then ([], Some r)
        else let (i, f) := split r in (c :: i, f)
    end in
  let (intpart, frac) := split s in
  let fracpart := match frac with Some f => f | None => [] end in
  match intpart ++ fracpart with
  | [] => Raise InvalidOperation
  | ds =>
      match digits_value 0 ds with
      | Some n => Ok (mkDec n (- Z.of_nat (length fracpart)))
      | None => Raise InvalidOperation
      end
  end.

End UnicodeDigits.

(** ** [decimal]: addition in the default context

    [prec=28], [rounding=ROUND_HALF_EVEN], [Emax=999999], [Emin=-999999],
    [clamp=0]; [Overflow] is trapped, the rounding signals are not. *)

Definition prec : Z := 28.
Definition Emax : Z := 999999.
Definition Emin : Z := -999999.
Definition Etiny : Z := Emin - prec + 1.
Definition Etop : Z := Emax - prec + 1.

Fixpoint ndigits (fuel : nat) (n : N) : Z :=
  match fuel with
  | O => 1
  | S f => if (n <? 10)%N then 1 else 1 + ndigits f (n / 10)
  end.

(** [len(str(n))] *)
Definition num_digits (n : N) : Z := ndigits (N.to_nat (N.log2 n)) n.

Definition pow10 (k : Z) : N := 10 ^ Z.to_N k.

(** [Decimal._fix]: round to the context's precision and exponent range. *)
Definition _fix (d : Decimal) : result Decimal :=
  if (coef d =? 0)%N then
    Ok (mkDec 0 (Z.min (Z.max (exp d) Etiny) Emax))
  else
    let exp_min := (num_digits (coef d) + exp d - prec)%Z in
    if (Etop <? exp_min)%Z then Raise DecimalOverflow
    else
      let exp_min := Z.max exp_min Etiny in
      if (exp d <? exp_min)%Z then
        let k := (exp_min - exp d)%Z in
        let q := (coef d / pow10 k)%N in
        let r := (coef d mod pow10 k)%N in
        let half := (pow10 k / 2)%N in
        let changed := ((half <? r) || ((r =? half) && N.odd q))%N in
        let (coeff, exp_min) :=
          if changed then
            if (prec <? num_digits (q + 1))%Z
            then (((q + 1) / 10)%N, (exp_min + 1)%Z)
            else ((q + 1)%N, exp_min)
          else (q, exp_min) in
        if (Etop <? exp_min)%Z then Raise DecimalOverflow
        else Ok (mkDec coeff exp_min)
      else Ok d.

(** [_normalize(op1, op2, prec)]: the operands brought to one exponent;
    an operand too small to matter after rounding is replaced by a
    one-digit stand-in. *)
Definition _normalize (op1 op2 : Decimal) : Decimal * Decimal :=
  let swap := (exp op1 <? exp op2)%Z in
  let tmp := if swap then op2 else op1 in
  let other := if swap then op1 else op2 in
  let tmp_len := num_digits (coef tmp) in
  let other_len := num_digits (coef other) in
  let e := (exp tmp + Z.min (-1) (tmp_len - prec - 2))%Z in
  let other :=
    if (other_len + exp other - 1 <? e)%Z then mkDec 1 e else other in
  let tmp := mkDec (coef tmp * pow10 (exp tmp - exp other)) (exp other) in
  if swap then (other, tmp) else (tmp, other).

(** [self + other] ([Decimal.__add__]) on non-negative operands. *)
Definition dec_add (self other : Decimal) : result Decimal :=
  let e := Z.min (exp self) (exp other) in
  if ((coef self =? 0) && (coef other =? 0))%N then _fix (mkDec 0 e)
  else if (coef self =? 0)%N then
    let e := Z.max e (exp other - prec - 1) in
    _fix (mkDec (coef other * pow10 (exp other - e)) e)
  else if (coef other =? 0)%N then
    let e := Z.max e (exp self - prec - 1) in
    _fix (mkDec (coef self * pow10 (exp self - e)) e)
  else
    let (op1, op2) := _normalize self other in
    _fix (mkDec (coef op1 + coef op2) (exp op1)).

(** ** Sockets

    What a peer does on one connection: whether [connect] and [sendall]
    fail, and what the successive [recv] calls find, as a function of the
    bytes it was sent.  Once the events are used up the peer has closed:
    [recv] returns [b'']. *)

Definition host_addr := (str * Z)%type.

Inductive recv_event :=
| RData (d : bytes)
| RFail (e : oserror).

Record peer := mkPeer {
  connect_err : option oserror;
  sendall_err : bytes -> option oserror;
  incoming : bytes -> list recv_event
}.

Definition sock := list recv_event.

(** [sock.recv(bufsize)]: at most [bufsize] bytes of what has arrived. *)
Definition recv (s : sock) (bufsize : N) : result bytes * sock :=
  match s with
  | [] => (Ok [], [])
  | RFail e :: rest => (Raise (SocketError e), rest)
  | RData d :: rest =>
      let n := N.to_nat (N.min bufsize (N.of_nat (length d))) in
      (Ok (firstn n d),
       match skipn n d with
       | [] => rest
       | d' => RData d' :: rest
       end)
  end.

Inductive event :=
| Connect (n : nat) (a : host_addr)
| Sendall (n : nat) (packet : bytes)
| Close (n : nat).

(** The observable state: connections opened so far and what was done
    on them, in order. *)
Record world := mkWorld { conns : nat; trace : list event }.

Definition M (A : Type) : Type := world -> result A * world.

Definition ret {A} (a : A) : M A := fun w => (Ok a, w).
Definition raise {A} (e : exn) : M A := fun w => (Raise e, w).
Definition bind {A B} (m : M A) (k : A -> M B) : M B :=
  fun w =>
    match m w with
    | (Ok a, w') => k a w'
    | (Raise e, w') => (Raise e, w')
    end.
Definition lift {A} (r : result A) : M A := fun w => (r, w).
Definition emit (ev : event) : M unit :=
  fun w => (Ok tt, mkWorld (conns w) (trace w ++ [ev])).

End Py.
Import Py.

Notation "x <- m ;; k" := (bind m (fun x => k))
  (at level 61, m at next level, right associativity).
Notation "m ;;; k" := (bind m (fun _ => k))
  (at level 61, right associativity).

(* ================================================================== *)
(** * Part II.  The module                                              *)
(* ================================================================== *)

(** ** [class ZabbixResponse] *)

Module ZabbixResponse.

(** [_time]: the [int] 0 the constructor stores, a [Decimal] from the
    first parsed reply on. *)
Inductive timeval :=
| Int0
| Dec (d : Decimal).

Record t := mk {
  _processed : Z;
  _failed : Z;
  _total : Z;
  _time : timeval;
  _chunk : Z
}.

Definition lit (s : string) : regex :=
  fold_right (fun c r => RSeq (RAtom (AChar c)) r) REps (u s).

Definition seqs (l : list regex) : regex := fold_right RSeq REps l.

Definition colon : N := 58.
Definition semicolon : N := 59.
Definition point : N := 46.

(** The pattern compiled in [__init__], with [D] for a greedy run of
    digits (backslash-d, starred) and [P] for an escaped point:
    [[Pp]rocessed:? (D);? [Ff]ailed:? (D);? [Tt]otal:? (D);?
    [Ss]econds spent:? (DPD)] *)
Definition pattern : regex :=
  seqs [RAtom (ASet (u "Pp")); lit "rocessed"; ROpt (AChar colon); lit " ";
        RGroup (RStar ADigit); ROpt (AChar semicolon); lit " ";
        RAtom (ASet (u "Ff")); lit "ailed"; ROpt (AChar colon); lit " ";
        RGroup (RStar ADigit); ROpt (AChar semicolon); lit " ";
        RAtom (ASet (u "Tt")); lit "otal"; ROpt (AChar colon); lit " ";
        RGroup (RStar ADigit); ROpt (AChar semicolon); lit " ";
        RAtom (ASet (u "Ss")); lit "econds spent"; ROpt (AChar colon);
        lit " ";
        RGroup (seqs [RStar ADigit; RAtom (AChar point); RStar ADigit])].

Definition __init__ : t := mk 0 0 0 Int0 0.

(** [self._time + d]: the [int] 0 is converted by [Decimal.__radd__]. *)
Definition time_add (time : timeval) (d : Decimal) : result Decimal :=
  match time with
  | Int0 => dec_add d (mkDec 0 0)
  | Dec t0 => dec_add t0 d
  end.

Section Parse.
Variable digit_value : N -> option N.

(** [self._regex.search(info)]: [info] must be a string. *)
Definition regex_search (info : pyval) : result (option (list str)) :=
  match info with
  | PyStr s => Ok (search digit_value pattern s)
  | _ => Raise TypeError
  end.

(** [res.group(i)], for [i] from 1; [res] is [None] without a match. *)
Definition group (res : option (list str)) (i : nat) : result str :=
  match res with
  | None => Raise AttributeError
  | Some caps => Ok (nth (i - 1) caps [])
  end.

(** [parse(self, response)].  The attributes are updated one after the
    other: what was added before an exception stays added. *)
Definition parse (self : t) (response : pyval) : result unit * t :=
  match py_get response (u "info") with
  | Raise e => (Raise e, self)
  | Ok info =>
  match regex_search info with
  | Raise e => (Raise e, self)
  | Ok res =>
  match rbind (group res 1) (int_of_str digit_value) with
  | Raise e => (Raise e, self)
  | Ok p =>
  let self := mk (_processed self + p) (_failed self) (_total self)
                 (_time self) (_chunk self) in
  match rbind (group res 2) (int_of_str digit_value) with
  | Raise e => (Raise e, self)
  | Ok f =>
  let self := mk (_processed self) (_failed self + f) (_total self)
                 (_time self) (_chunk self) in
  match rbind (group res 3) (int_of_str digit_value) with
  | Raise e => (Raise e, self)
  | Ok n =>
  let self := mk (_processed self) (_failed self) (_total self + n)
                 (_time self) (_chunk self) in
  match rbind (rbind (group res 4) (Decimal_of_str digit_value))
              (time_add (_time self)) with
  | Raise e => (Raise e, self)
  | Ok d =>
  let self := mk (_processed self) (_failed self) (_total self)
                 (Dec d) (_chunk self) in
  (Ok tt, mk (_processed self) (_failed self) (_total self)
             (_time self) (_chunk self + 1))
  end end end end end end.

End Parse.

End ZabbixResponse.

(** ** [class ZabbixMetric] *)

Module ZabbixMetric.

Record t := mk { host : str; key : str; value : str; clock : option Z }.

(** [__init__(self, host, key, value, clock=None)].  [host], [key] and
    [value] stand for [str(host)], [str(key)] and [str(value)]. *)
Definition __init__ (host key value : str) (clock : pyval) : result t :=
  if truthy clock then
    if isinstance_float_int clock then
      rbind (py_int clock) (fun c => Ok (mk host key value (Some c)))
    else Raise Exception_clock
  else Ok (mk host key value None).

(** [self.__dict__], in the order the attributes are set. *)
Definition __dict__ (self : t) : list (str * attr) :=
  [(u "host", AStr (host self)); (u "key", AStr (key self));
   (u "value", AStr (value self))]
  ++ match clock self with
     | Some c => [(u "clock", AInt c)]
     | None => []
     end.

(** [__repr__], which [str(m)] falls back to. *)
Definition __repr__ (self : t) : str := json_dumps (__dict__ self).

End ZabbixMetric.

(** ** [class ZabbixSender] *)

Module ZabbixSender.

Record t := mk { chunk_size : Z; zabbix_uri : list host_addr }.

(** [__init__] without [use_config]; with it, [zabbix_uri] is the list
    the configuration file yields. *)
Definition __init__ (zabbix_server : str) (zabbix_port : Z) (chunk_size : Z)
  : t := mk chunk_size [(zabbix_server, zabbix_port)].

(** [_receive(self, sock, count)]: the loop runs while the buffer is
    short and the last read was not empty; every turn but the last adds
    a byte at least, so [count] turns are enough. *)
Fixpoint _receive_loop (fuel : nat) (s : sock) (count : N) (buf : bytes)
  : option (result bytes * sock) :=
  if (N.of_nat (length buf) <? count)%N then
    match fuel with
    | O => None
    | S fuel' =>
        match recv s (count - N.of_nat (length buf)) with
        | (Raise e, s') => Some (Raise e, s')
        | (Ok [], s') => Some (Ok buf, s')
        | (Ok chunk, s') => _receive_loop fuel' s' count (buf ++ chunk)
        end
    end
  else Some (Ok buf, s).

Definition _receive (s : sock) (count : N) : result bytes * sock :=
  match _receive_loop (N.to_nat count) s count [] with
  | Some r => r
  | None => (Ok [], s)
  end.

Definition _create_messages (metrics : list ZabbixMetric.t) : list str :=
  map ZabbixMetric.__repr__ metrics.

(** The text of the request, before it is encoded. *)
Definition request_text (messages : list str) : str :=
  let msg := join (u ",") messages in
  [123%N] ++ [34%N] ++ u "request" ++ [34%N] ++ u ":" ++
  [34%N] ++ u "sender data" ++ [34%N] ++ u "," ++
  [34%N] ++ u "data" ++ [34%N] ++ u ":[" ++ msg ++ u "]}".

Definition _create_request (messages : list str) : result bytes :=
  encode_utf8 (request_text messages).

(** [b'ZBXD\x01'] *)
Definition ZBXD1 : bytes := [x5a; x42; x58; x44; x01].

Definition _create_packet (request : bytes) : result bytes :=
  rbind (struct_pack_Q (N.of_nat (length request)))
        (fun data_len => Ok (ZBXD1 ++ data_len ++ request)).

Fixpoint startswith (b prefix : bytes) : bool :=
  match prefix, b with
  | [], _ => true
  | p :: prefix', x :: b' => Byte.eqb x p && startswith b' prefix'
  | _ :: _, [] => false
  end.

Section Network.

(** [json.loads(body.decode("utf-8"))] *)
Variable json_loads : bytes -> decode_error + pyval.

(** The peer met by the [n]-th connection of the run, to address [a]. *)
Variable net : nat -> host_addr -> peer.

(** The first half of [_get_response]: the header is read, then, if
    it is valid, the body, in one [recv].  [False] stands for a header
    that is not valid. *)
Definition read_response (s : sock) : result pyval :=
  let (r, s) := _receive s 13 in
  rbind r (fun response_header =>
    if negb (startswith response_header ZBXD1)
       || negb (Nat.eqb (length response_header) 13)
    then Ok (PyBool false)
    else
      rbind (struct_unpack_Q (skipn 5 response_header)) (fun response_len =>
      rbind (fst (recv s response_len)) (fun response_body =>
      match json_loads response_body with
      | inl e => Raise (BodyError e)
      | inr v => Ok v
      end))).

(** [_get_response(self, connection)], on connection [n] with [s] still
    to arrive: the connection is closed once the result is there, not
    when reading or decoding raised. *)
Definition _get_response (n : nat) (s : sock) : M pyval :=
  result <- lift (read_response s) ;;
  emit (Close n) ;;;
  ret result.

(** One turn of the loop over [self.zabbix_uri]. *)
Definition exchange (packet : bytes) (host_addr : host_addr) : M pyval :=
  fun w =>
    let n := conns w in
    let p := net n host_addr in
    (emit (Connect n host_addr) ;;;
     match connect_err p with
     | Some e => raise (SocketError e)
     | None =>
         emit (Sendall n packet) ;;;
         match sendall_err p packet with
         | Some err => emit (Close n) ;;; raise (Exception_err err)
         | None =>
             response <- _get_response n (incoming p packet) ;;
             if truthy response then
               r <- lift (py_get response (u "response")) ;;
               if ne_str r (u "success")
               then raise (Exception_response response)
               else ret response
             else ret response
         end
     end) (mkWorld (S n) (trace w)).

(** The loop of [_chunk_send]; [response] is unbound ([None]) until the
    first turn is over. *)
Fixpoint endpoints (packet : bytes) (uris : list host_addr)
    (response : option pyval) : M (option pyval) :=
  match uris with
  | [] => ret response
  | host_addr :: rest =>
      r <- exchange packet host_addr ;;
      endpoints packet rest (Some r)
  end.

Definition _chunk_send (self : t) (metrics : list ZabbixMetric.t) : M pyval :=
  let messages := _create_messages metrics in
  request <- lift (_create_request messages) ;;
  packet <- lift (_create_packet request) ;;
  response <- endpoints packet (zabbix_uri self) None ;;
  match response with
  | Some r => ret r
  | None => raise UnboundLocalError
  end.

Variable digit_value : N -> option N.

(** The body of the loop of [send], over the chunks still to go. *)
Fixpoint send_chunks (self : t) (chunks : list (list ZabbixMetric.t))
    (result : ZabbixResponse.t) : M ZabbixResponse.t :=
  match chunks with
  | [] => ret result
  | c :: rest =>
      response <- _chunk_send self c ;;
      match ZabbixResponse.parse digit_value result response with
      | (Ok _, result') => send_chunks self rest result'
      | (Raise e, _) => raise e
      end
  end.

(** The slices [metrics[m:m + self.chunk_size]] for [m] in
    [range(0, len(metrics), self.chunk_size)]. *)
Definition chunks (self : t) (metrics : list ZabbixMetric.t)
  : result (list (list ZabbixMetric.t)) :=
  rbind (py_range 0 (Z.of_nat (length metrics)) (chunk_size self))
        (fun ms => Ok (map (fun m => slice metrics m (m + chunk_size self)) ms)).

Definition send (self : t) (metrics : list ZabbixMetric.t)
  : M ZabbixResponse.t :=
  let result := ZabbixResponse.__init__ in
  cs <- lift (chunks self metrics) ;;
  send_chunks self cs result.

End Network.

End ZabbixSender.

(** ** Notions the statements are phrased with *)

(** The ASCII rows of the Unicode digit table. *)
Definition ascii_digit (c : N) : option N :=
  (if (48 <=? c) && (c <=? 57) then Some (c - 48) else None)%N.

(** A digit table that has the ASCII rows right. *)
Definition ascii_rows (digit_value : N -> option N) : Prop :=
  forall c, (c < 128)%N -> digit_value c = ascii_digit c.

Definition is_ascii (s : str) : bool := forallb (fun c => (c <? 128)%N) s.

Fixpoint is_prefix (p s : str) : bool :=
  match p, s with
  | [], _ => true
  | a :: p', b :: s' => (a =? b)%N && is_prefix p' s'
  | _ :: _, [] => false
  end.

(** [sub in s] *)
Fixpoint contains (sub s : str) : bool :=
  is_prefix sub s ||
  match s with
  | [] => false
  | _ :: s' => contains sub s'
  end.

(** The words a regular expression matches. *)
Inductive matches (digit_value : N -> option N) : regex -> str -> Prop :=
| MEps : matches digit_value REps []
| MAtom a c :
    atom_matches digit_value a c = true -> matches digit_value (RAtom a) [c]
| MOptNone a : matches digit_value (ROpt a) []
| MOptSome a c :
    atom_matches digit_value a c = true -> matches digit_value (ROpt a) [c]
| MStar a w :
    Forall (fun c => atom_matches digit_value a c = true) w ->
    matches digit_value (RStar a) w
| MSeq r1 r2 w1 w2 :
    matches digit_value r1 w1 -> matches digit_value r2 w2 ->
    matches digit_value (RSeq r1 r2) (w1 ++ w2)
| MGroup r w : matches digit_value r w -> matches digit_value (RGroup r) w.

(** The sum of two decimals without rounding, at the smaller exponent. *)
Definition dec_exact (a b : Decimal) : Decimal :=
  let e := Z.min (exp a) (exp b) in
  mkDec (coef a * pow10 (exp a - e) + coef b * pow10 (exp b - e)) e.

(** [a == b] on decimals: the same number, whatever the exponents. *)
Definition dec_eqb (a b : Decimal) : bool :=
  let e := Z.min (exp a) (exp b) in
  (coef a * pow10 (exp a - e) =? coef b * pow10 (exp b - e))%N.

(** [self._time] as a decimal: [Decimal(0)] for the initial [int]. *)
Definition time_value (time : ZabbixResponse.timeval) : Decimal :=
  match time with
  | ZabbixResponse.Int0 => mkDec 0 0
  | ZabbixResponse.Dec d => d
  end.

(** The world after a connection that went as far as the close. *)
Definition after_exchange (w : world) (a : host_addr) (packet : bytes)
  : world :=
  mkWorld (S (conns w))
    (trace w ++ [Connect (conns w) a; Sendall (conns w) packet;
                 Close (conns w)]).

(** The packet of a chunk: request, then frame. *)
Definition packet_of (chunk : list ZabbixMetric.t) : result bytes :=
  rbind (ZabbixSender._create_request (ZabbixSender._create_messages chunk))
        ZabbixSender._create_packet.

(** [parse] over the replies of a run, one after the other. *)
Fixpoint parse_all (digit_value : N -> option N) (replies : list pyval)
    (acc : ZabbixResponse.t) : result ZabbixResponse.t :=
  match replies with
  | [] => Ok acc
  | r :: rest =>
      match ZabbixResponse.parse digit_value acc r with
      | (Ok _, acc') => parse_all digit_value rest acc'
      | (Raise e, _) => Raise e
      end
  end.

(** A result that is not the exception of the clock check. *)
Definition not_clock_error {A} (r : result A) : Prop :=
  r <> Raise Exception_clock.

(** A reply object with the two fields of the protocol. *)
Definition reply (response info : string) : pyval :=
  PyDict [(u "response", PyStr (u response)); (u "info", PyStr (u info))].

(** ** Sample data *)

Definition sample_metric : ZabbixMetric.t :=
  ZabbixMetric.mk (u "localhost") (u "cpu[usage]") (u "20") None.

Definition quoted (s : string) : str := [34%N] ++ u s ++ [34%N].

(** The JSON text of a reply with the two fields. *)
Definition reply_text (response info : string) : bytes :=
  map byte_of_N
    (u "{" ++ quoted "response" ++ u ":" ++ quoted response ++ u ","
       ++ quoted "info" ++ u ":" ++ quoted info ++ u "}").

Definition info_1 : string :=
  "processed: 1; failed: 0; total: 1; seconds spent: 0.000042".
Definition info_7 : string :=
  "processed: 7; failed: 0; total: 7; seconds spent: 0.000100".

Definition bytes_eqb (a b : bytes) : bool :=
  ZabbixSender.startswith a b && ZabbixSender.startswith b a.

(** [json.loads] on the handful of texts the samples use. *)
Definition sample_loads (body : bytes) : decode_error + pyval :=
  if bytes_eqb body (reply_text "success" info_1)
  then inr (reply "success" info_1)
  else if bytes_eqb body (reply_text "success" info_7)
  then inr (reply "success" info_7)
  else if bytes_eqb body (reply_text "failed" "bad host")
  then inr (reply "failed" "bad host")
  else if bytes_eqb body (map byte_of_N (u "{}"))
  then inr (PyDict [])
  else inl JSONDecodeError.

(** A peer that accepts the connection and the packet and answers with
    one frame, header and body in two segments. *)
Definition answering (body : bytes) : peer :=
  mkPeer None (fun _ => None)
    (fun _ => [RData (ZabbixSender.ZBXD1
                      ++ le_bytes 8 (N.of_nat (length body)));
               RData body]).

Definition server_a : host_addr := (u "zabbix-a", 10051%Z).
Definition server_b : host_addr := (u "zabbix-b", 10051%Z).

(** Every server accepts, but the fourth connection is refused. *)
Definition net_fourth_rejects (n : nat) (a : host_addr) : peer :=
  if Nat.eqb n 3 then answering (reply_text "failed" "bad host")
  else answering (reply_text "success" info_1).

(** The first connection is answered with an empty object. *)
Definition net_first_empty (n : nat) (a : host_addr) : peer :=
  if Nat.eqb n 0 then answering (map byte_of_N (u "{}"))
  else answering (reply_text "success" info_1).

(** [server_a] reports seven values a chunk, [server_b] one. *)
Definition net_a7_b1 (n : nat) (a : host_addr) : peer :=
  if str_eqb (fst a) (u "zabbix-a")
  then answering (reply_text "success" info_7)
  else answering (reply_text "success" info_1).

(** The packet of the chunk that holds [sample_metric] alone. *)
Definition sample_packet : bytes :=
  match packet_of [sample_metric] with
  | Ok p => p
  | Raise _ => []
  end.

(** The packet of a chunk of two. *)
Definition sample_packet2 : bytes :=
  match packet_of [sample_metric; sample_metric] with
  | Ok p => p
  | Raise _ => []
  end.

(** ** Reading the configuration ([ZabbixSender._load_from_config]) *)

Module Config.

(** What loading a configuration can raise.  The two last ones are both
    [ValueError] in Python: of the tuple assignment, and of [int]. *)
Inductive cfg_exn :=
| NameError                      (* name 'os' is not defined *)
| OpenError (e : oserror)        (* open(config_file, 'r') *)
| ConfigParserError (code : nat) (* raised by configparser *)
| ValueError_unpack              (* server, port = ... *)
| ValueError_int.                (* int(port) *)

Definition cfg_result (A : Type) : Type := (cfg_exn + A)%type.

Definition cbind {A B} (r : cfg_result A) (k : A -> cfg_result B)
  : cfg_result B :=
  match r with
  | inl e => inl e
  | inr a => k a
  end.

(** [s.split(sep)] for a separator of one character. *)
Fixpoint split (sep : N) (s : str) : list str :=
  match s with
  | [] => [[]]
  | c :: r =>
      if (c =? sep)%N then [] :: split sep r
      else
        match split sep r with
        | [] => [[c]]
        | x :: xs => (c :: x) :: xs
        end
  end.

(** [c in s] for a character [c]. *)
Definition has_char (c : N) (s : str) : bool := existsb (N.eqb c) s.

Section Loader.

(** [str.isspace] of one character (the white space of Unicode). *)
Variable is_space : N -> bool.

(** The builtin [int] on a string; [None] for [ValueError]. *)
Variable builtin_int : str -> option Z.

(** [open(config_file, 'r').read()] *)
Variable open_read : pyval -> oserror + str.

(** What [RawConfigParser(default_params)] finds for [ServerActive] in
    section [root] of the text it is given: the value in the file, or
    the default [127.0.0.1:10051]. *)
Variable config_get : str -> nat + str.

Fixpoint lstrip (s : str) : str :=
  match s with
  | c :: r => if is_space c then lstrip r else s
  | [] => []
  end.

(** [s.strip()] *)
Definition strip (s : str) : str := rev (lstrip (rev (lstrip s))).

(** The body of the loop over [zabbix_serveractives.split(',')]. *)
Definition serverport (entry : str) : cfg_result host_addr :=
  let entry :=
    if negb (has_char 58 entry)
    then strip entry ++ u ":" ++ int_str 10051
    else entry in
  match split 58 entry with
  | [server; port] =>
      match builtin_int port with
      | Some p => inr (server, p)
      | None => inl ValueError_int
      end
  | _ => inl ValueError_unpack
  end.

(** The loop: the first entry that raises ends it. *)
Fixpoint serverports (entries : list str) : cfg_result (list host_addr) :=
  match entries with
  | [] => inr []
  | e :: rest =>
      cbind (serverport e) (fun a =>
      cbind (serverports rest) (fun r => inr (a :: r)))
  end.

(** [_load_from_config(self, config_file)].  With [True] the default
    paths are probed with [os.path.exists], and [os] is not imported.
    (The [print] of the path is left out.) *)
Definition _load_from_config (config_file : pyval)
  : cfg_result (list host_addr) :=
  match config_file with
  | PyBool true => inl NameError
  | _ =>
      match open_read config_file with
      | inl e => inl (OpenError e)
      | inr data =>
          match config_get (u "[root]" ++ [10%N] ++ data) with
          | inl code => inl (ConfigParserError code)
          | inr zabbix_serveractives =>
              serverports (split 44 zabbix_serveractives)
          end
      end
  end.

(** [ZabbixSender.__init__], with [use_config]. *)
Definition __init__ (zabbix_server : str) (zabbix_port : Z)
    (use_config : pyval) (chunk_size : Z) : cfg_result ZabbixSender.t :=
  if truthy use_config then
    cbind (_load_from_config use_config)
          (fun uri => inr (ZabbixSender.mk chunk_size uri))
  else inr (ZabbixSender.mk chunk_size [(zabbix_server, zabbix_port)]).

End Loader.

End Config.

(** ** Further notions *)

Definition is_printable (s : str) : bool :=
  forallb (fun c => (32 <=? c) && (c <=? 126))%N s.

(** The segments a peer has sent, after the first [k] bytes were read. *)
Fixpoint after_bytes (k : nat) (ds : list bytes) : list bytes :=
  match ds with
  | [] => []
  | d :: rest =>
      if Nat.eqb k 0 then ds
      else if length d <=? k then after_bytes (k - length d) rest
      else skipn k d :: rest
  end.

(** [json.loads(body.decode("utf-8"))] as a result. *)
Definition decode (jl : bytes -> decode_error + pyval) (body : bytes)
  : result pyval :=
  match jl body with
  | inl e => Raise (BodyError e)
  | inr v => Ok v
  end.

(** The frame of a body: header, then body. *)
Definition frame (body : bytes) : bytes :=
  ZabbixSender.ZBXD1 ++ le_bytes 8 (N.of_nat (length body)) ++ body.

(** The matcher, started on [s] with the groups [caps], comes through
    with [s'] left and the groups [caps'], whenever the rest of the
    pattern accepts that. *)
Definition accepts (digit_value : N -> option N) (r : regex)
    (s : str) (caps : list str) (s' : str) (caps' : list str) : Prop :=
  forall (R : Type) (k : str -> list str -> option R) x,
    k s' caps' = Some x -> rmatch digit_value r s caps k = Some x.

(** The ways the server may write its statistics line: each label with
    a capital or a small first letter, each colon and each semicolon
    there or not. *)
Record info_style := mkStyle {
  cap_p : bool; cap_f : bool; cap_t : bool; cap_s : bool;
  colon_p : bool; colon_f : bool; colon_t : bool; colon_s : bool;
  semi_p : bool; semi_f : bool; semi_t : bool
}.

Definition initial (capital : bool) (upper lower : string) : str :=
  if capital then u upper else u lower.

Definition mark (present : bool) (c : N) : str :=
  if present then [c] else [].

Definition info_text (st : info_style) (p f t si sf : str) : str :=
  initial (cap_p st) "P" "p" ++ u "rocessed" ++ mark (colon_p st) 58
    ++ u " " ++ p ++ mark (semi_p st) 59 ++ u " "
  ++ initial (cap_f st) "F" "f" ++ u "ailed" ++ mark (colon_f st) 58
    ++ u " " ++ f ++ mark (semi_f st) 59 ++ u " "
  ++ initial (cap_t st) "T" "t" ++ u "otal" ++ mark (colon_t st) 58
    ++ u " " ++ t ++ mark (semi_t st) 59 ++ u " "
  ++ initial (cap_s st) "S" "s" ++ u "econds spent" ++ mark (colon_s st) 58
    ++ u " " ++ si ++ u "." ++ sf.

(** A string of decimal digits. *)
Definition all_digits (digit_value : N -> option N) (s : str) : Prop :=
  Forall (fun c => digit_value c <> None) s.

(** What a connection that runs its course leaves in the trace, for the
    endpoints in turn, from connection [n] on; and for a run of chunks. *)
Fixpoint endpoint_events (n : nat) (uris : list host_addr) (packet : bytes)
  : list event :=
  match uris with
  | [] => []
  | a :: rest =>
      [Connect n a; Sendall n packet; Close n]
      ++ endpoint_events (S n) rest packet
  end.

Fixpoint run_events (n : nat) (uris : list host_addr) (packets : list bytes)
  : list event :=
  match packets with
  | [] => []
  | p :: rest =>
      endpoint_events n uris p ++ run_events (n + length uris) uris rest
  end.




(** An entry of [ServerActive] as it is written: a host, alone or
    followed by a colon and a port (the text of the port and the
    integer [int] reads in it); whether it can be read back; and the
    endpoint it stands for. *)
Definition entry : Type := (str * option (str * Z))%type.

Definition entry_text (e : entry) : str :=
  match snd e with
  | None => fst e
  | Some (port, _) => fst e ++ u ":" ++ port
  end.

Definition entry_ok (builtin_int : str -> option Z) (e : entry) : Prop :=
  Config.has_char 58 (fst e) = false /\
  Config.has_char 44 (fst e) = false /\
  match snd e with
  | None => True
  | Some (port, p) =>
      Config.has_char 58 port = false /\
      Config.has_char 44 port = false /\
      builtin_int port = Some p
  end.

Definition entry_endpoint (is_space : N -> bool) (e : entry) : host_addr :=
  match snd e with
  | None => (Config.strip is_space (fst e), 10051%Z)
  | Some (_, p) => (fst e, p)
  end.

(* ================================================================== *)
(** * Part III.  Properties                                             *)
(* ================================================================== *)

(** ** Metric construction *)

Lemma falsy_clock_init host key value clock :
  truthy clock = false ->
  ZabbixMetric.__init__ host key value clock
  = Ok (ZabbixMetric.mk host key value None).
Proof.
  intros H. unfold ZabbixMetric.__init__. now rewrite H.
Qed.

(** C10.  A falsy [clock] argument, the number 0 and the empty string
    among them, is accepted without error; the metric then has no
    [clock] attribute, and its JSON text has the three string fields
    only. *)
Theorem falsy_clock_is_dropped host key value clock :
  truthy clock = false ->
  truthy (PyInt 0) = false /\ truthy (PyStr []) = false /\
  exists m,
    ZabbixMetric.__init__ host key value clock = Ok m /\
    ZabbixMetric.clock m = None /\
    map fst (ZabbixMetric.__dict__ m) = [u "host"; u "key"; u "value"] /\
    ZabbixMetric.__repr__ m
    = u "{" ++ py_encode_basestring_ascii (u "host") ++ u ": "
        ++ py_encode_basestring_ascii host ++ u ", "
        ++ py_encode_basestring_ascii (u "key") ++ u ": "
        ++ py_encode_basestring_ascii key ++ u ", "
        ++ py_encode_basestring_ascii (u "value") ++ u ": "
        ++ py_encode_basestring_ascii value ++ u "}".
Proof.
  intros H. split; [reflexivity|]. split; [reflexivity|].
  exists (ZabbixMetric.mk host key value None).
  split; [now apply falsy_clock_init|].
  split; [reflexivity|]. split; [reflexivity|].
  unfold ZabbixMetric.__repr__, json_dumps, ZabbixMetric.__dict__, dumps_item.
  cbn [ZabbixMetric.clock ZabbixMetric.host ZabbixMetric.key
       ZabbixMetric.value map join fst snd dumps_attr app].
  now rewrite <- !app_assoc.
Qed.

Lemma falsy_clock_is_dropped_witness :
  truthy (PyInt 0) = false /\ truthy (PyStr []) = false /\
  exists m,
    ZabbixMetric.__init__ (u "localhost") (u "cpu[usage]") (u "20") (PyInt 0)
    = Ok m /\
    ZabbixMetric.clock m = None /\
    map fst (ZabbixMetric.__dict__ m) = [u "host"; u "key"; u "value"] /\
    ZabbixMetric.__repr__ m
    = u "{" ++ py_encode_basestring_ascii (u "host") ++ u ": "
        ++ py_encode_basestring_ascii (u "localhost") ++ u ", "
        ++ py_encode_basestring_ascii (u "key") ++ u ": "
        ++ py_encode_basestring_ascii (u "cpu[usage]") ++ u ", "
        ++ py_encode_basestring_ascii (u "value") ++ u ": "
        ++ py_encode_basestring_ascii (u "20") ++ u "}".
Proof.
  apply (falsy_clock_is_dropped (u "localhost") (u "cpu[usage]") (u "20")
           (PyInt 0)).
  reflexivity.
Defined.

(** C9, as stated, fails: the empty string is not numeric, yet the
    constructor accepts it; and a negative clock is stored as it is. *)
Lemma non_numeric_clock_accepted :
  isinstance_float_int (PyStr []) = false /\
  ZabbixMetric.__init__ (u "h") (u "k") (u "v") (PyStr [])
  = Ok (ZabbixMetric.mk (u "h") (u "k") (u "v") None) /\
  ZabbixMetric.__init__ (u "h") (u "k") (u "v") (PyInt (-5))
  = Ok (ZabbixMetric.mk (u "h") (u "k") (u "v") (Some (-5)%Z)).
Proof. repeat split. Qed.

(** ** The frame codec: requests *)

Lemma to_N_byte_of_N n : Byte.to_N (byte_of_N n) = (n mod 256)%N.
Proof.
  unfold byte_of_N.
  destruct (Byte.of_N (n mod 256)) as [b|] eqn:E.
  - now apply Byte.to_of_N.
  - apply Byte.of_N_None_iff in E.
    pose proof (N.mod_lt n 256). lia.
Qed.

Lemma length_le_bytes k n : length (le_bytes k n) = k.
Proof. revert n. induction k; intros; cbn; [reflexivity | now rewrite IHk]. Qed.

Lemma le_value_le_bytes k n :
  (n < 256 ^ N.of_nat k)%N -> le_value (le_bytes k n) = n.
Proof.
  revert n. induction k as [|k IH]; intros n Hn.
  - cbn in *. lia.
  - cbn [le_bytes le_value]. rewrite to_N_byte_of_N, IH.
    + rewrite N.Div0.mod_mod. clear.
      pose proof (N.div_mod n 256 ltac:(discriminate)). lia.
    + rewrite Nat2N.inj_succ, N.pow_succ_r' in Hn.
      apply N.Div0.div_lt_upper_bound. lia.
Qed.

Lemma struct_Q_roundtrip n :
  (n < 2 ^ 64)%N ->
  struct_pack_Q n = Ok (le_bytes 8 n) /\
  struct_unpack_Q (le_bytes 8 n) = Ok n.
Proof.
  intros Hn. unfold struct_pack_Q, struct_unpack_Q.
  apply N.ltb_lt in Hn as Hb. rewrite Hb, length_le_bytes. cbn [Nat.eqb].
  split; [reflexivity|].
  f_equal. apply le_value_le_bytes. exact Hn.
Qed.

Lemma is_ascii_app a b : is_ascii (a ++ b) = is_ascii a && is_ascii b.
Proof. apply forallb_app. Qed.

Lemma is_ascii_flat_map (f : N -> str) s :
  (forall c, is_ascii (f c) = true) -> is_ascii (flat_map f s) = true.
Proof.
  intros Hf. induction s as [|c s IH]; cbn; [reflexivity|].
  now rewrite is_ascii_app, Hf, IH.
Qed.

Lemma is_ascii_hex_digit n : (n < 16)%N -> (hex_digit n <? 128)%N = true.
Proof.
  intros H. unfold hex_digit. apply N.ltb_lt.
  destruct (n <? 10)%N; lia.
Qed.

Lemma is_ascii_u_escape n : is_ascii (u_escape n) = true.
Proof.
  unfold u_escape, hex4, is_ascii. cbn [app forallb].
  rewrite !is_ascii_hex_digit by (apply N.mod_lt; discriminate).
  reflexivity.
Qed.

Lemma is_ascii_replace c : is_ascii (replace c) = true.
Proof.
  unfold replace, ESCAPE_DCT.
  repeat match goal with
         | |- context [if ?b then _ else _] => destruct b
         end;
    try reflexivity; rewrite ?is_ascii_app, ?is_ascii_u_escape; reflexivity.
Qed.

Lemma is_ascii_basestring s : is_ascii (py_encode_basestring_ascii s) = true.
Proof.
  unfold py_encode_basestring_ascii.
  rewrite !is_ascii_app, is_ascii_flat_map; [reflexivity|].
  intros c. destruct (ESCAPE_ASCII c) eqn:E; [apply is_ascii_replace|].
  unfold ESCAPE_ASCII in E. cbn. rewrite andb_true_r. apply N.ltb_lt.
  apply orb_false_iff in E as [_ E]. apply negb_false_iff in E.
  apply andb_true_iff in E as [_ E]. apply N.leb_le in E. lia.
Qed.

Lemma is_ascii_uint_str d : is_ascii (uint_str d) = true.
Proof. induction d; cbn; auto. Qed.

Lemma is_ascii_int_str z : is_ascii (int_str z) = true.
Proof.
  unfold int_str. destruct (Z.to_int z); cbn; apply is_ascii_uint_str.
Qed.

Lemma is_ascii_join sep l :
  is_ascii sep = true -> Forall (fun x => is_ascii x = true) l ->
  is_ascii (join sep l) = true.
Proof.
  intros Hs Hl. induction Hl as [|x l Hx Hl IH]; [reflexivity|].
  destruct l as [|y l]; [exact Hx|].
  change (join sep (x :: y :: l)) with (x ++ sep ++ join sep (y :: l)).
  now rewrite !is_ascii_app, Hx, Hs, IH.
Qed.

Lemma is_ascii_repr m : is_ascii (ZabbixMetric.__repr__ m) = true.
Proof.
  unfold ZabbixMetric.__repr__, json_dumps.
  rewrite !is_ascii_app, is_ascii_join; [reflexivity | reflexivity |].
  apply Forall_forall. intros x Hx. apply in_map_iff in Hx as [[k a] [<- _]].
  unfold dumps_item. cbn [fst snd].
  rewrite !is_ascii_app, is_ascii_basestring.
  destruct a; cbn [dumps_attr];
    rewrite ?is_ascii_basestring, ?is_ascii_int_str; reflexivity.
Qed.

Lemma is_ascii_request_text metrics :
  is_ascii (ZabbixSender.request_text (ZabbixSender._create_messages metrics))
  = true.
Proof.
  unfold ZabbixSender.request_text, ZabbixSender._create_messages.
  rewrite !is_ascii_app, is_ascii_join; [reflexivity | reflexivity |].
  apply Forall_forall. intros x Hx. apply in_map_iff in Hx as [m [<- _]].
  apply is_ascii_repr.
Qed.

(** An ASCII text is encoded byte for code point. *)
Lemma encode_utf8_ascii s :
  is_ascii s = true -> encode_utf8 s = Ok (map byte_of_N s).
Proof.
  induction s as [|c s IH]; cbn; [reflexivity|].
  intros H. apply andb_true_iff in H as [Hc Hs].
  unfold utf8_char. rewrite Hc, IH by exact Hs. reflexivity.
Qed.

(** C1.  The packet of a metric list is the five bytes [ZBXD\x01], the
    length of the body as eight little-endian bytes, and the body: the
    UTF-8 (here ASCII) bytes of the JSON text.  The length field reads
    back as the length of the body.  (A [bytes] object of [2^64] bytes
    or more does not exist; [struct.pack] would refuse its length.) *)
Theorem packet_layout metrics :
  (N.of_nat (length (ZabbixSender.request_text
                       (ZabbixSender._create_messages metrics))) < 2 ^ 64)%N ->
  exists body,
    ZabbixSender._create_request (ZabbixSender._create_messages metrics)
    = Ok body /\
    body = map byte_of_N (ZabbixSender.request_text
                            (ZabbixSender._create_messages metrics)) /\
    ZabbixSender._create_packet body
    = Ok ([x5a; x42; x58; x44; x01]
          ++ le_bytes 8 (N.of_nat (length body)) ++ body) /\
    length (le_bytes 8 (N.of_nat (length body))) = 8 /\
    struct_unpack_Q (le_bytes 8 (N.of_nat (length body)))
    = Ok (N.of_nat (length body)).
Proof.
  intros Hlen.
  set (text := ZabbixSender.request_text _) in *.
  exists (map byte_of_N text).
  assert (Hl : length (map byte_of_N text) = length text) by apply length_map.
  rewrite Hl.
  destruct (struct_Q_roundtrip Hlen) as [Hp Hu].
  split; [apply encode_utf8_ascii, is_ascii_request_text|].
  split; [reflexivity|].
  split; [unfold ZabbixSender._create_packet; rewrite Hl, Hp; reflexivity|].
  split; [apply length_le_bytes | exact Hu].
Qed.

(** ** The matcher *)

Lemma Forall_take {A} (P : A -> Prop) n l : Forall P l -> Forall P (firstn n l).
Proof.
  intros H. rewrite <- (firstn_skipn n l) in H.
  now apply Forall_app in H as [H _].
Qed.

Section MatcherFacts.
Variable dv : N -> option N.

Lemma star_sound R a s (k : str -> option R) x :
  star dv a s k = Some x ->
  exists w s',
    s = w ++ s' /\ Forall (fun c => atom_matches dv a c = true) w /\
    k s' = Some x.
Proof.
  induction s as [|c s IH]; cbn; intros H.
  - exists [], []. auto.
  - destruct (atom_matches dv a c) eqn:Ea;
      [destruct (star dv a s k) as [y|] eqn:Es|].
    + injection H as ->. destruct (IH eq_refl) as (w & s' & -> & Hw & Hk).
      exists (c :: w), s'. auto.
    + exists [], (c :: s). auto.
    + exists [], (c :: s). auto.
Qed.

(** Soundness: a successful match consumed a word of the expression,
    and the groups are cut out of the text. *)
Lemma rmatch_sound R r : forall s caps (k : str -> list str -> option R) x,
  rmatch dv r s caps k = Some x ->
  exists w s' caps',
    s = w ++ s' /\ matches dv r w /\ k s' caps' = Some x /\
    forall P : N -> Prop,
      Forall P s -> Forall (Forall P) caps -> Forall (Forall P) caps'.
Proof.
  induction r as [|a|a|a|r1 IH1 r2 IH2|r IH]; cbn; intros s caps k x H.
  - exists [], s, caps. repeat split; auto. constructor.
  - destruct s as [|c s]; [discriminate|].
    destruct (atom_matches dv a c) eqn:Ea; [|discriminate].
    exists [c], s, caps. repeat split; auto. now constructor.
  - destruct s as [|c s].
    + exists [], [], caps. repeat split; auto. constructor.
    + destruct (atom_matches dv a c) eqn:Ea;
        [destruct (k s caps) as [y|] eqn:Ek|].
      * injection H as ->. exists [c], s, caps. repeat split; auto.
        now constructor.
      * exists [], (c :: s), caps. repeat split; auto. constructor.
      * exists [], (c :: s), caps. repeat split; auto. constructor.
  - apply star_sound in H as (w & s' & -> & Hw & Hk).
    exists w, s', caps. repeat split; auto. now constructor.
  - apply IH1 in H as (w1 & s1 & caps1 & -> & M1 & H & C1).
    apply IH2 in H as (w2 & s2 & caps2 & -> & M2 & H & C2).
    exists (w1 ++ w2), s2, caps2. rewrite <- app_assoc.
    repeat split; auto. { now constructor. }
    intros P Hs Hc. apply C2; [|now apply C1].
    now apply Forall_app in Hs as [_ Hs].
  - apply IH in H as (w & s' & caps' & -> & M & H & C).
    eexists w, s', _. repeat split; eauto. { now constructor. }
    intros P Hs Hc. apply Forall_app. split; [now apply C|].
    constructor; [|constructor]. now apply Forall_take.
Qed.

Lemma search_sound r s caps :
  search dv r s = Some caps ->
  (exists pre w post, s = pre ++ w ++ post /\ matches dv r w) /\
  forall P : N -> Prop, Forall P s -> Forall (Forall P) caps.
Proof.
  induction s as [|c s IH]; cbn [search]; intros H.
  - destruct (rmatch dv r [] [] (fun _ caps => Some caps)) as [y|] eqn:E;
      [|discriminate].
    injection H as ->.
    apply rmatch_sound in E as (w & s' & caps' & Hs & M & Hk & C).
    injection Hk as ->. split; [|intros P HP; now apply C].
    exists [], w, s'. auto.
  - destruct (rmatch dv r (c :: s) [] (fun _ caps => Some caps)) as [y|] eqn:E.
    + injection H as ->.
      apply rmatch_sound in E as (w & s' & caps' & Hs & M & Hk & C).
      injection Hk as ->. split; [|intros P HP; now apply C].
      exists [], w, s'. auto.
    + destruct (IH H) as [(pre & w & post & -> & M) C].
      split; [|intros P HP; apply C; now inversion HP].
      exists (c :: pre), w, post. auto.
Qed.

(** A word of a sequence holds a word of each of its members. *)
Lemma matches_seqs_member rs r w :
  matches dv (ZabbixResponse.seqs rs) w -> In r rs ->
  exists pre w' post, w = pre ++ w' ++ post /\ matches dv r w'.
Proof.
  revert w. induction rs as [|r0 rs IH]; intros w M Hin; [destruct Hin|].
  cbn in M. inversion M as [| | | | |? ? w1 w2 M1 M2|]; subst.
  destruct Hin as [->|Hin].
  - exists [], w1, w2. auto.
  - destruct (IH _ M2 Hin) as (pre & w' & post & -> & M').
    exists (w1 ++ pre), w', post. rewrite <- app_assoc. auto.
Qed.

Lemma matches_lit l w :
  matches dv (ZabbixResponse.lit l) w -> w = u l.
Proof.
  unfold ZabbixResponse.lit. revert w.
  induction (u l) as [|c cs IH]; cbn; intros w M.
  - now inversion M.
  - inversion M as [| | | | |? ? w1 w2 M1 M2|]; subst.
    inversion M1; subst. cbn in *.
    match goal with H : (_ =? _)%N = true |- _ => apply N.eqb_eq in H as -> end.
    cbn. f_equal. now apply IH.
Qed.

End MatcherFacts.

Lemma is_prefix_app p s : is_prefix p (p ++ s) = true.
Proof. induction p; cbn; [reflexivity | now rewrite N.eqb_refl]. Qed.

Lemma contains_app sub pre post : contains sub (pre ++ sub ++ post) = true.
Proof.
  induction pre as [|c pre IH]; cbn [app].
  - destruct (sub ++ post) eqn:E; cbn; rewrite <- ?E, is_prefix_app;
      reflexivity.
  - cbn. rewrite IH. apply orb_true_r.
Qed.

(** Without one of the labels in the text there is no match. *)
Lemma search_needs_label dv l info :
  In (ZabbixResponse.lit l)
     [ZabbixResponse.lit "rocessed"; ZabbixResponse.lit "ailed";
      ZabbixResponse.lit "otal"; ZabbixResponse.lit "econds spent"] ->
  contains (u l) info = false ->
  search dv ZabbixResponse.pattern info = None.
Proof.
  intros Hin Hc.
  destruct (search dv ZabbixResponse.pattern info) as [caps|] eqn:E;
    [|reflexivity].
  apply search_sound in E as [(pre & w & post & -> & M) _].
  unfold ZabbixResponse.pattern in M.
  apply matches_seqs_member with (r := ZabbixResponse.lit l) in M.
  - destruct M as (p1 & w' & p2 & -> & M). apply matches_lit in M as ->.
    rewrite <- !app_assoc, app_assoc, contains_app in Hc. discriminate.
  - cbn in Hin |- *. intuition (subst; auto 30).
Qed.

(** ** Texts on which two digit tables agree *)

Section Agreement.
Variables dv1 dv2 : N -> option N.

Let agree (s : str) : Prop := Forall (fun c => dv1 c = dv2 c) s.

Lemma atom_matches_ext a c :
  dv1 c = dv2 c -> atom_matches dv1 a c = atom_matches dv2 a c.
Proof. intros H. destruct a; cbn; now rewrite ?H. Qed.

Lemma star_ext R a s (k k' : str -> option R) :
  agree s -> (forall s', agree s' -> k s' = k' s') ->
  star dv1 a s k = star dv2 a s k'.
Proof.
  intros Hs Hk. induction Hs as [|c s Hc Hs IH]; cbn.
  - apply Hk. constructor.
  - rewrite (atom_matches_ext a Hc), IH.
    now rewrite (Hk (c :: s)) by now constructor.
Qed.

Lemma rmatch_ext R r : forall s caps (k k' : str -> list str -> option R),
  agree s -> (forall s' caps', agree s' -> k s' caps' = k' s' caps') ->
  rmatch dv1 r s caps k = rmatch dv2 r s caps k'.
Proof.
  induction r as [|a|a|a|r1 IH1 r2 IH2|r IH]; cbn; intros s caps k k' Hs Hk.
  - now apply Hk.
  - destruct Hs as [|c s Hc Hs]; [reflexivity|].
    rewrite (atom_matches_ext a Hc), Hk by exact Hs. reflexivity.
  - destruct Hs as [|c s Hc Hs]; [apply Hk; constructor|].
    rewrite (atom_matches_ext a Hc), (Hk s) by exact Hs.
    now rewrite (Hk (c :: s)) by now constructor.
  - apply star_ext; auto.
  - apply IH1; auto.
  - apply IH; auto.
Qed.

Lemma search_ext r s : agree s -> search dv1 r s = search dv2 r s.
Proof.
  intros Hs. induction Hs as [|c s Hc Hs IH]; cbn [search].
  - rewrite (@rmatch_ext _ r [] [] _ (fun _ caps => Some caps));
      [reflexivity | constructor | reflexivity].
  - rewrite (@rmatch_ext _ r (c :: s) [] _ (fun _ caps => Some caps));
      [now rewrite IH | now constructor | reflexivity].
Qed.

Lemma digits_value_ext s : forall acc,
  agree s -> digits_value dv1 acc s = digits_value dv2 acc s.
Proof.
  induction s as [|c s IH]; intros acc Hs; cbn; [reflexivity|].
  inversion Hs as [|? ? Hc Hs']; subst. rewrite Hc.
  destruct (dv2 c); [now apply IH | reflexivity].
Qed.

Lemma int_of_str_ext s : agree s -> int_of_str dv1 s = int_of_str dv2 s.
Proof.
  intros Hs. unfold int_of_str. now rewrite (digits_value_ext 0 Hs).
Qed.

Lemma Decimal_of_str_ext s :
  agree s -> Decimal_of_str dv1 s = Decimal_of_str dv2 s.
Proof.
  intros Hs. unfold Decimal_of_str.
  set (split := fix split (s : str) : str * option str := _).
  assert (Hsplit : forall s, agree s ->
            agree (fst (split s)) /\
            agree (match snd (split s) with Some f => f | None => [] end)).
  { clear. induction s as [|c s IH]; intros Hs; cbn.
    - split; constructor.
    - inversion Hs as [|? ? Hc Hs']; subst.
      destruct (c =? 46)%N; cbn; [split; [constructor | exact Hs']|].
      destruct (IH Hs') as [Hi Hf]. destruct (split s) as [i f]. cbn in *.
      split; [now constructor | exact Hf]. }
  destruct (Hsplit s Hs) as [Hi Hf]. destruct (split s) as [i f].
  cbn [fst snd] in Hi, Hf.
  destruct f as [f|]; cbv beta iota zeta.
  - assert (Hd : agree (i ++ f)) by (apply Forall_app; now split).
    destruct (i ++ f) as [|c ds]; [reflexivity|].
    now rewrite (digits_value_ext 0 Hd).
  - assert (Hd : agree (i ++ [])) by (apply Forall_app; now split).
    destruct (i ++ []) as [|c ds]; [reflexivity|].
    now rewrite (digits_value_ext 0 Hd).
Qed.

(** [parse] asks the digit table about the characters of [info] only. *)
Lemma parse_ext self response info :
  py_get response (u "info") = Ok (PyStr info) -> agree info ->
  ZabbixResponse.parse dv1 self response
  = ZabbixResponse.parse dv2 self response.
Proof.
  intros Hget Hs. unfold ZabbixResponse.parse.
  rewrite Hget. cbn [ZabbixResponse.regex_search].
  rewrite (search_ext ZabbixResponse.pattern Hs).
  destruct (search dv2 ZabbixResponse.pattern info) as [caps|] eqn:E;
    [|reflexivity].
  rewrite <- (search_ext ZabbixResponse.pattern Hs) in E.
  apply search_sound in E as [_ C]. specialize (C _ Hs).
  assert (Hn : forall i, agree (nth i caps [])).
  { intros i. destruct (nth_in_or_default i caps []) as [Hi| ->];
      [|constructor].
    revert Hi. now apply Forall_forall. }
  cbn [ZabbixResponse.group rbind].
  rewrite !(int_of_str_ext (Hn _)), (Decimal_of_str_ext (Hn _)).
  reflexivity.
Qed.

End Agreement.

Lemma ascii_rows_agree dv s :
  ascii_rows dv -> is_ascii s = true ->
  Forall (fun c => dv c = ascii_digit c) s.
Proof.
  intros H Hs. apply Forall_forall. intros c Hc. apply H.
  unfold is_ascii in Hs. rewrite forallb_forall in Hs.
  now apply N.ltb_lt, Hs.
Qed.

(** On an ASCII text the ASCII rows decide. *)
Lemma parse_ascii dv self response info :
  ascii_rows dv ->
  py_get response (u "info") = Ok (PyStr info) -> is_ascii info = true ->
  ZabbixResponse.parse dv self response
  = ZabbixResponse.parse ascii_digit self response.
Proof.
  intros H Hget Hs. eapply parse_ext; [exact Hget|].
  now apply ascii_rows_agree.
Qed.

(** ** The response aggregator: parsing *)

Lemma parse_no_match dv self response info :
  py_get response (u "info") = Ok (PyStr info) ->
  search dv ZabbixResponse.pattern info = None ->
  ZabbixResponse.parse dv self response = (Raise AttributeError, self).
Proof.
  intros Hget Hs. unfold ZabbixResponse.parse.
  rewrite Hget. cbn [ZabbixResponse.regex_search]. now rewrite Hs.
Qed.

(** C6.  The info text of the protocol parses to its four numbers; a
    text that lacks one of the four labels does not match the pattern,
    and [parse] raises (the [AttributeError] of [None.group]) and leaves
    the counters as they were. *)
Theorem parse_four_fields dv self response info l :
  ascii_rows dv ->
  py_get response (u "info") = Ok (PyStr info) ->
  In l ["rocessed"; "ailed"; "otal"; "econds spent"]%string ->
  contains (u l) info = false ->
  ZabbixResponse.parse dv self response = (Raise AttributeError, self) /\
  ZabbixResponse.parse dv ZabbixResponse.__init__
    (reply "success"
       "processed: 3; failed: 1; total: 4; seconds spent: 0.001234")
  = (Ok tt,
     ZabbixResponse.mk 3 1 4 (ZabbixResponse.Dec (mkDec 1234 (-6))) 1).
Proof.
  intros Hdv Hget Hl Hc. split.
  - apply parse_no_match with (info := info); [exact Hget|].
    apply search_needs_label with (l := l); [|exact Hc].
    cbn in Hl |- *. intuition (subst; auto).
  - rewrite (@parse_ascii dv _ _
               (u "processed: 3; failed: 1; total: 4; seconds spent: 0.001234")
               Hdv); reflexivity.
Qed.

Lemma ascii_rows_ascii_digit : ascii_rows ascii_digit.
Proof. intros c _. reflexivity. Qed.

Lemma parse_four_fields_witness :
  ZabbixResponse.parse ascii_digit ZabbixResponse.__init__
    (reply "success" "processed: 3; failed: 1; total: 4")
  = (Raise AttributeError, ZabbixResponse.__init__) /\
  ZabbixResponse.parse ascii_digit ZabbixResponse.__init__
    (reply "success"
       "processed: 3; failed: 1; total: 4; seconds spent: 0.001234")
  = (Ok tt,
     ZabbixResponse.mk 3 1 4 (ZabbixResponse.Dec (mkDec 1234 (-6))) 1).
Proof.
  apply (@parse_four_fields ascii_digit ZabbixResponse.__init__
           (reply "success" "processed: 3; failed: 1; total: 4")
           (u "processed: 3; failed: 1; total: 4") "econds spent"%string).
  - intros c _. reflexivity.
  - reflexivity.
  - simpl. auto.
  - reflexivity.
Defined.

(** ** Decimal addition *)

Lemma ndigits_pos fuel : forall n, (1 <= ndigits fuel n)%Z.
Proof.
  induction fuel as [|fuel IH]; intros n; cbn [ndigits]; [lia|].
  destruct (n <? 10)%N; [lia|]. specialize (IH (n / 10)%N). lia.
Qed.

Lemma ndigits_le fuel : forall n k,
  (N.log2 n <= N.of_nat fuel)%N -> (1 <= k)%Z ->
  (ndigits fuel n <= k)%Z <-> (n < pow10 k)%N.
Proof.
  unfold pow10.
  induction fuel as [|fuel IH]; intros n k Hlog Hk; cbn [ndigits].
  - assert (n < 2)%N.
    { destruct (N.eq_dec n 0) as [->|Hn]; [lia|].
      change 2%N with (2 ^ 1)%N. apply N.log2_lt_pow2; lia. }
    assert (10 ^ 1 <= 10 ^ Z.to_N k)%N by (apply N.pow_le_mono_r; lia).
    cbn in *. split; lia.
  - destruct (n <? 10)%N eqn:E.
    + apply N.ltb_lt in E.
      assert (10 ^ 1 <= 10 ^ Z.to_N k)%N by (apply N.pow_le_mono_r; lia).
      cbn in *. split; lia.
    + apply N.ltb_ge in E.
      assert (Hlog' : (N.log2 (n / 10) <= N.of_nat fuel)%N).
      { assert (n / 10 <= n / 2)%N
          by (apply N.div_le_compat_l; lia).
        assert (N.log2 (n / 10) <= N.log2 (n / 2))%N
          by now apply N.log2_le_mono.
        rewrite <- N.div2_div, N.div2_spec, N.log2_shiftr in *. lia. }
      pose proof (ndigits_pos fuel (n / 10)) as Hpos.
      destruct (Z.eq_dec k 1) as [->|Hk1].
      * change (10 ^ Z.to_N 1)%N with 10%N. split; lia.
      * specialize (IH (n / 10)%N (k - 1)%Z Hlog' ltac:(lia)).
        replace (Z.to_N k) with (N.succ (Z.to_N (k - 1))) by lia.
        rewrite N.pow_succ_r'.
        assert (Hdiv : (n / 10 < 10 ^ Z.to_N (k - 1))%N
                       <-> (n < 10 * 10 ^ Z.to_N (k - 1))%N).
        { pose proof (N.div_mod n 10 ltac:(discriminate)) as Hdm.
          pose proof (N.mod_lt n 10 ltac:(discriminate)) as Hml.
          clear - Hdm Hml.
          generalize dependent (10 ^ Z.to_N (k - 1))%N.
          generalize dependent (n / 10)%N.
          generalize dependent (n mod 10)%N. intros; lia. }
        rewrite <- Hdiv, <- IH. lia.
Qed.

Lemma num_digits_le n k :
  (1 <= k)%Z -> (num_digits n <= k)%Z <-> (n < pow10 k)%N.
Proof. intros Hk. apply ndigits_le; [lia | exact Hk]. Qed.

Lemma num_digits_pos n : (1 <= num_digits n)%Z.
Proof. apply ndigits_pos. Qed.

(** A number is at least the power of ten below its digit count. *)
Lemma num_digits_lower n :
  n <> 0%N -> (pow10 (num_digits n - 1) <= n)%N.
Proof.
  intros Hn. pose proof (num_digits_pos n) as Hp.
  destruct (Z.eq_dec (num_digits n) 1) as [E|E].
  - rewrite E. cbn. lia.
  - apply N.le_ngt. intros H.
    apply (num_digits_le n) in H; lia.
Qed.

Lemma pow10_add a b :
  (0 <= a)%Z -> (0 <= b)%Z -> pow10 (a + b) = (pow10 a * pow10 b)%N.
Proof.
  intros Ha Hb. unfold pow10. rewrite Z2N.inj_add by lia.
  apply N.pow_add_r.
Qed.

Lemma pow10_pos k : (0 < pow10 k)%N.
Proof. unfold pow10. apply N.neq_0_lt_0, N.pow_nonzero. discriminate. Qed.

Lemma pow10_le a b : (a <= b)%Z -> (pow10 a <= pow10 b)%N.
Proof. intros H. unfold pow10. apply N.pow_le_mono_r; lia. Qed.

(** A scaled coefficient below [10^prec] leaves room for its digits. *)
Lemma scaled_digits n d :
  n <> 0%N -> (0 <= d)%Z -> (n * pow10 d < pow10 prec)%N ->
  (num_digits n + d <= prec)%Z.
Proof.
  intros Hn Hd H. pose proof (num_digits_pos n) as Hp.
  pose proof (num_digits_lower Hn) as Hl.
  destruct (Z_le_gt_dec (num_digits n + d) prec) as [?|Hgt]; [assumption|].
  exfalso.
  assert (pow10 prec <= pow10 (num_digits n - 1 + d))%N
    by (apply pow10_le; lia).
  rewrite pow10_add in * by lia.
  pose proof (pow10_pos d). nia.
Qed.


(** [_fix] leaves alone what the context can hold. *)
Lemma _fix_representable c e :
  (c < pow10 prec)%N -> (Etiny <= e <= Etop)%Z ->
  _fix (mkDec c e) = Ok (mkDec c e).
Proof.
  intros Hc He. unfold _fix. cbn [coef exp].
  destruct (c =? 0)%N eqn:E.
  - apply N.eqb_eq in E as ->. do 2 f_equal. unfold Etop, Emax, prec in *. lia.
  - apply (num_digits_le c) in Hc; [|unfold prec; lia].
    replace (Etop <? num_digits c + e - prec)%Z with false
      by (symmetry; apply Z.ltb_ge; lia).
    replace (e <? Z.max (num_digits c + e - prec) Etiny)%Z with false
      by (symmetry; apply Z.ltb_ge; lia).
    reflexivity.
Qed.

(** Addition is exact when the exact sum fits the precision. *)
Lemma dec_add_exact a b :
  (coef (dec_exact a b) < pow10 prec)%N ->
  (Etiny <= exp (dec_exact a b) <= Etop)%Z ->
  dec_add a b = Ok (dec_exact a b).
Proof.
  destruct a as [c1 e1], b as [c2 e2].
  unfold dec_exact, dec_add. cbn [coef exp]. intros Hc He.
  set (e := Z.min e1 e2) in *.
  assert (H1 : (0 <= e1 - e)%Z) by lia.
  assert (H2 : (0 <= e2 - e)%Z) by lia.
  pose proof (pow10_pos (e1 - e)) as P1.
  pose proof (pow10_pos (e2 - e)) as P2.
  destruct (N.eqb_spec c1 0) as [->|E1]; destruct (N.eqb_spec c2 0) as [->|E2];
    cbn [andb].
  - rewrite !N.mul_0_l in *. now apply _fix_representable.
  - rewrite N.mul_0_l, N.add_0_l in Hc |- *.
    assert (num_digits c2 + (e2 - e) <= prec)%Z by now apply scaled_digits.
    pose proof (num_digits_pos c2).
    replace (Z.max e (e2 - prec - 1)) with e by lia.
    now apply _fix_representable.
  - rewrite N.mul_0_l, N.add_0_r in Hc |- *.
    assert (num_digits c1 + (e1 - e) <= prec)%Z by now apply scaled_digits.
    pose proof (num_digits_pos c1).
    replace (Z.max e (e1 - prec - 1)) with e by lia.
    now apply _fix_representable.
  - assert (D1 : (num_digits c1 + (e1 - e) <= prec)%Z)
      by (apply scaled_digits; [assumption | lia | nia]).
    assert (D2 : (num_digits c2 + (e2 - e) <= prec)%Z)
      by (apply scaled_digits; [assumption | lia | nia]).
    pose proof (num_digits_pos c1). pose proof (num_digits_pos c2).
    unfold _normalize. cbn [coef exp].
    destruct (e1 <? e2)%Z eqn:Esw;
      [apply Z.ltb_lt in Esw | apply Z.ltb_ge in Esw]; cbn [coef exp].
    + replace (num_digits c1 + e1 - 1
               <? e2 + Z.min (-1) (num_digits c2 - prec - 2))%Z with false
        by (symmetry; apply Z.ltb_ge; lia).
      cbn [coef exp]. replace e with e1 in * by lia.
      replace (e1 - e1)%Z with 0%Z in * by lia.
      change (pow10 0) with 1%N in *. rewrite N.mul_1_r in *.
      now apply _fix_representable.
    + replace (num_digits c2 + e2 - 1
               <? e1 + Z.min (-1) (num_digits c1 - prec - 2))%Z with false
        by (symmetry; apply Z.ltb_ge; lia).
      cbn [coef exp]. replace e with e2 in * by lia.
      replace (e2 - e2)%Z with 0%Z in * by lia.
      change (pow10 0) with 1%N in *. rewrite N.mul_1_r in *.
      now apply _fix_representable.
Qed.

(** ** The response aggregator: accumulation *)

Lemma dec_exact_comm a b : dec_exact a b = dec_exact b a.
Proof.
  unfold dec_exact. rewrite (Z.min_comm (exp b)). f_equal. apply N.add_comm.
Qed.

(** C7, as stated, fails: a time of 29 significant digits is rounded to
    28 when it is added, here already to the initial 0. *)
Lemma time_sum_is_rounded :
  ZabbixResponse.parse ascii_digit ZabbixResponse.__init__
    (reply "success"
       "processed: 1; failed: 0; total: 1; seconds spent: 0.12345678901234567890123456789")
  = (Ok tt,
     ZabbixResponse.mk 1 0 1
       (ZabbixResponse.Dec (mkDec 1234567890123456789012345679 (-28))) 1) /\
  dec_exact (mkDec 0 0) (mkDec 12345678901234567890123456789 (-29))
  = mkDec 12345678901234567890123456789 (-29) /\
  dec_eqb (mkDec 1234567890123456789012345679 (-28))
          (mkDec 12345678901234567890123456789 (-29)) = false.
Proof. repeat split; vm_compute; reflexivity. Qed.

(** C7, amended.  When the text matches and its four groups convert,
    [parse] adds the three counts as integers, adds one to the chunk
    count, and adds the time with [Decimal.__add__] in the default
    context; that sum is the exact one whenever the exact sum has at
    most 28 digits and its exponent is in the range of the context.
    The two chunks of the example add up as the spec says. *)
Theorem parse_accumulates dv self response info caps p f n d t' :
  ascii_rows dv ->
  py_get response (u "info") = Ok (PyStr info) ->
  search dv ZabbixResponse.pattern info = Some caps ->
  int_of_str dv (nth 0 caps []) = Ok p ->
  int_of_str dv (nth 1 caps []) = Ok f ->
  int_of_str dv (nth 2 caps []) = Ok n ->
  Decimal_of_str dv (nth 3 caps []) = Ok d ->
  ZabbixResponse.time_add (ZabbixResponse._time self) d = Ok t' ->
  ZabbixResponse.parse dv self response
  = (Ok tt,
     ZabbixResponse.mk (ZabbixResponse._processed self + p)
       (ZabbixResponse._failed self + f) (ZabbixResponse._total self + n)
       (ZabbixResponse.Dec t') (ZabbixResponse._chunk self + 1)) /\
  ((coef (dec_exact (time_value (ZabbixResponse._time self)) d)
    < pow10 prec)%N ->
   (Etiny <= exp (dec_exact (time_value (ZabbixResponse._time self)) d)
    <= Etop)%Z ->
   t' = dec_exact (time_value (ZabbixResponse._time self)) d) /\
  exists r1,
    ZabbixResponse.parse dv ZabbixResponse.__init__
      (reply "success"
         "processed: 3; failed: 1; total: 4; seconds spent: 0.001")
    = (Ok tt, r1) /\
    ZabbixResponse.parse dv r1
      (reply "success"
         "processed: 2; failed: 0; total: 2; seconds spent: 0.002")
    = (Ok tt,
       ZabbixResponse.mk 5 1 6 (ZabbixResponse.Dec (mkDec 3 (-3))) 2).
Proof.
  intros Hdv Hget Hs Hp Hf Hn Hd Ht. split; [|split].
  - unfold ZabbixResponse.parse. rewrite Hget.
    cbn [ZabbixResponse.regex_search]. rewrite Hs.
    cbn [ZabbixResponse.group rbind Nat.sub].
    rewrite Hp, Hf, Hn, Hd.
    cbn [rbind ZabbixResponse._processed ZabbixResponse._failed
         ZabbixResponse._total ZabbixResponse._time ZabbixResponse._chunk].
    rewrite Ht. reflexivity.
  - intros Hc He. destruct (ZabbixResponse._time self) as [|t0];
      cbn [ZabbixResponse.time_add time_value] in *.
    + rewrite dec_exact_comm in Hc, He |- *.
      rewrite (dec_add_exact _ _ Hc He) in Ht. now injection Ht.
    + rewrite (dec_add_exact _ _ Hc He) in Ht. now injection Ht.
  - eexists. split.
    + rewrite (@parse_ascii dv _ _
                 (u "processed: 3; failed: 1; total: 4; seconds spent: 0.001")
                 Hdv); [|reflexivity..].
      vm_compute. reflexivity.
    + rewrite (@parse_ascii dv _ _
                 (u "processed: 2; failed: 0; total: 2; seconds spent: 0.002")
                 Hdv); reflexivity.
Qed.

Lemma parse_accumulates_witness :
  ZabbixResponse.parse ascii_digit ZabbixResponse.__init__
    (reply "success" "processed: 3; failed: 1; total: 4; seconds spent: 0.001")
  = (Ok tt,
     ZabbixResponse.mk (0 + 3) (0 + 1) (0 + 4)
       (ZabbixResponse.Dec (mkDec 1 (-3))) (0 + 1)) /\
  ((coef (dec_exact (time_value ZabbixResponse.Int0) (mkDec 1 (-3)))
    < pow10 prec)%N ->
   (Etiny <= exp (dec_exact (time_value ZabbixResponse.Int0) (mkDec 1 (-3)))
    <= Etop)%Z ->
   mkDec 1 (-3) = dec_exact (time_value ZabbixResponse.Int0) (mkDec 1 (-3))) /\
  exists r1,
    ZabbixResponse.parse ascii_digit ZabbixResponse.__init__
      (reply "success"
         "processed: 3; failed: 1; total: 4; seconds spent: 0.001")
    = (Ok tt, r1) /\
    ZabbixResponse.parse ascii_digit r1
      (reply "success"
         "processed: 2; failed: 0; total: 2; seconds spent: 0.002")
    = (Ok tt,
       ZabbixResponse.mk 5 1 6 (ZabbixResponse.Dec (mkDec 3 (-3))) 2).
Proof.
  apply (@parse_accumulates ascii_digit ZabbixResponse.__init__
           (reply "success"
              "processed: 3; failed: 1; total: 4; seconds spent: 0.001")
           (u "processed: 3; failed: 1; total: 4; seconds spent: 0.001")
           [u "3"; u "1"; u "4"; u "0.001"] 3 1 4 (mkDec 1 (-3))
           (mkDec 1 (-3))).
  - intros c _. reflexivity.
  - reflexivity.
  - vm_compute. reflexivity.
  - reflexivity.
  - reflexivity.
  - reflexivity.
  - reflexivity.
  - vm_compute. reflexivity.
Defined.

(** ** The transport: reading a reply *)

Lemma recv_data d rest bufsize :
  d <> [] -> (0 < bufsize)%N ->
  let n := N.to_nat (N.min bufsize (N.of_nat (length d))) in
  recv (RData d :: rest) bufsize
  = (Ok (firstn n d),
     if (N.of_nat (length d) <=? bufsize)%N then rest
     else RData (skipn n d) :: rest) /\
  firstn n d <> [] /\ (0 < n <= length d)%nat.
Proof.
  intros Hd Hb n. unfold recv. fold n.
  assert (Hn : (0 < n <= length d)%nat).
  { destruct d; [congruence|]. cbn [length] in *. lia. }
  split; [|split; [|exact Hn]].
  - f_equal. destruct (N.leb_spec (N.of_nat (length d)) bufsize) as [Hle|Hgt].
    + rewrite skipn_all2 by lia. reflexivity.
    + destruct (skipn n d) eqn:E; [|reflexivity].
      apply skipn_all_iff in E. lia.
  - destruct d; [congruence|]. destruct n; [lia|]. discriminate.
Qed.

(** The loop of [_receive] gathers the first [count] bytes of what the
    peer sends before it closes, or all of it when that is less. *)
Lemma _receive_loop_stream ds : forall fuel count buf,
  Forall (fun d => d <> []) ds ->
  (N.to_nat count - length buf <= fuel)%nat ->
  exists s',
    ZabbixSender._receive_loop fuel (map RData ds) count buf
    = Some (Ok (buf ++ firstn (N.to_nat count - length buf) (concat ds)), s').
Proof.
  induction ds as [|d ds IH]; intros fuel count buf Hds Hfuel.
  - destruct fuel; cbn; destruct (N.of_nat (length buf) <? count)%N eqn:E;
      rewrite ?firstn_nil, ?app_nil_r; try (eexists; reflexivity).
    apply N.ltb_lt in E. lia.
  - inversion Hds as [|? ? Hd Hds']; subst.
    destruct fuel as [|fuel]; cbn [ZabbixSender._receive_loop map];
      destruct (N.of_nat (length buf) <? count)%N eqn:E;
      try (apply N.ltb_lt in E); try (apply N.ltb_ge in E); try lia.
    + replace (N.to_nat count - length buf)%nat with 0%nat by lia.
      rewrite firstn_0, app_nil_r. eexists; reflexivity.
    + destruct (@recv_data d (map RData ds) (count - N.of_nat (length buf)) Hd
                  ltac:(lia)) as (Hr & Hne & Hn).
      rewrite Hr. clear Hr.
      set (n := N.to_nat (N.min (count - N.of_nat (length buf))
                            (N.of_nat (length d)))) in *.
      destruct (firstn n d) as [|b chunk] eqn:Ec; [congruence|].
      rewrite <- Ec. clear Hne.
      assert (Hlen : length (firstn n d) = n)
        by (rewrite length_firstn; lia).
      destruct (N.leb_spec (N.of_nat (length d))
                  (count - N.of_nat (length buf))) as [Hle|Hgt].
      * assert (n = length d) by lia.
        replace (firstn n d) with d
          by (symmetry; apply firstn_all2; lia).
        destruct (IH fuel count (buf ++ d) Hds') as [s' Hs'].
        { rewrite length_app. lia. }
        exists s'. rewrite Hs'. rewrite length_app, <- app_assoc.
        do 3 f_equal. cbn [concat].
        rewrite firstn_app.
        rewrite (firstn_all2 d) by (clear - Hle E; lia).
        do 3 f_equal. lia.
      * assert (n = N.to_nat count - length buf)%nat by lia.
        eexists.
        destruct fuel; cbn [ZabbixSender._receive_loop];
          replace (N.of_nat (length (buf ++ firstn n d)) <? count)%N
            with false
            by (symmetry; apply N.ltb_ge; rewrite length_app; lia);
          cbn [concat]; rewrite firstn_app;
          replace (N.to_nat count - length buf - length d)%nat with 0%nat
            by lia;
          rewrite firstn_0, app_nil_r; replace (N.to_nat count - length buf)%nat with n by lia;
          reflexivity.
    + replace (N.to_nat count - length buf)%nat with 0%nat by lia.
      rewrite firstn_0, app_nil_r. eexists; reflexivity.
Qed.

(** The loop ends: [count] turns are enough, whatever the peer does. *)
Lemma _receive_loop_total fuel : forall s count buf,
  (N.to_nat count - length buf <= fuel)%nat ->
  ZabbixSender._receive_loop fuel s count buf <> None.
Proof.
  induction fuel as [|fuel IH]; intros s count buf Hfuel;
    cbn [ZabbixSender._receive_loop];
    destruct (N.of_nat (length buf) <? count)%N eqn:E;
    try discriminate; apply N.ltb_lt in E; [lia|].
  destruct (recv s (count - N.of_nat (length buf))) as [[[|b chunk]|e] s'];
    try discriminate.
  apply IH. rewrite length_app. cbn [length]. lia.
Qed.

Lemma _receive_stream ds count :
  Forall (fun d => d <> []) ds ->
  exists s',
    ZabbixSender._receive (map RData ds) count
    = (Ok (firstn (N.to_nat count) (concat ds)), s').
Proof.
  intros Hds. unfold ZabbixSender._receive.
  assert (Hf : (N.to_nat count - length (@nil byte) <= N.to_nat count)%nat)
    by (cbn; lia).
  destruct (@_receive_loop_stream ds (N.to_nat count) count [] Hds Hf)
    as [s' Hs'].
  rewrite Hs'. cbn. rewrite Nat.sub_0_r. now exists s'.
Qed.

Lemma startswith_length b p :
  ZabbixSender.startswith b p = true -> (length p <= length b)%nat.
Proof.
  revert b. induction p as [|x p IH]; intros [|y b]; cbn; try lia;
    try discriminate.
  intros H. apply andb_true_iff in H as [_ H]. apply IH in H. lia.
Qed.

(** A header that is not valid: the result is [False], the connection
    is closed, nothing is raised and no body is read. *)
Lemma invalid_header jl n s w header s' :
  ZabbixSender._receive s 13 = (Ok header, s') ->
  ZabbixSender.startswith header ZabbixSender.ZBXD1 = false \/
  length header <> 13%nat ->
  ZabbixSender.read_response jl s = Ok (PyBool false) /\
  ZabbixSender._get_response jl n s w
  = (Ok (PyBool false), mkWorld (conns w) (trace w ++ [Close n])).
Proof.
  intros Hr Hbad.
  assert (H : ZabbixSender.read_response jl s = Ok (PyBool false)).
  { unfold ZabbixSender.read_response. rewrite Hr. cbn [rbind].
    destruct Hbad as [-> | Hlen]; [reflexivity|].
    apply Nat.eqb_neq in Hlen. rewrite Hlen. cbn [negb].
    now rewrite orb_true_r. }
  split; [exact H|].
  unfold ZabbixSender._get_response, bind, lift, emit, ret. now rewrite H.
Qed.

(** C2, as stated, fails: thirteen bytes with a wrong version byte are
    answered with [False], and nothing is raised. *)
Lemma wrong_version_not_raised :
  ZabbixSender.startswith
    [x5a; x42; x58; x44; x02; x00; x00; x00; x00; x00; x00; x00; x00]
    ZabbixSender.ZBXD1 = false /\
  ZabbixSender._get_response (fun _ => inl JSONDecodeError) 0
    [RData [x5a; x42; x58; x44; x02; x00; x00; x00; x00; x00; x00; x00; x00]]
    (mkWorld 1 [])
  = (Ok (PyBool false), mkWorld 1 [Close 0]).
Proof. split; reflexivity. Qed.

(** C2, amended.  A received header that does not start with
    [ZBXD\x01], or is not 13 bytes long, makes [_get_response] return
    [False]: the connection is closed, no exception is raised, and the
    body is neither read nor parsed, whatever [json.loads] would do. *)
Theorem invalid_header_yields_False jl n s w header s' :
  ZabbixSender._receive s 13 = (Ok header, s') ->
  ZabbixSender.startswith header ZabbixSender.ZBXD1 = false \/
  length header <> 13%nat ->
  ZabbixSender.read_response jl s = Ok (PyBool false) /\
  ZabbixSender._get_response jl n s w
  = (Ok (PyBool false), mkWorld (conns w) (trace w ++ [Close n])) /\
  truthy (PyBool false) = false.
Proof.
  intros Hr Hbad.
  destruct (@invalid_header jl n s w header s' Hr Hbad) as [H1 H2].
  repeat split; assumption.
Qed.

Lemma invalid_header_yields_False_witness :
  ZabbixSender.read_response (fun _ => inr (PyDict []))
    [RData [x5a; x42; x58; x44; x02; x00; x00; x00; x00; x00; x00; x00; x00]]
  = Ok (PyBool false) /\
  ZabbixSender._get_response (fun _ => inr (PyDict [])) 0
    [RData [x5a; x42; x58; x44; x02; x00; x00; x00; x00; x00; x00; x00; x00]]
    (mkWorld 1 [])
  = (Ok (PyBool false),
     mkWorld (conns (mkWorld 1 [])) (trace (mkWorld 1 []) ++ [Close 0])) /\
  truthy (PyBool false) = false.
Proof.
  apply (@invalid_header_yields_False (fun _ => inr (PyDict [])) 0
           [RData [x5a; x42; x58; x44; x02; x00; x00; x00; x00; x00; x00;
                   x00; x00]]
           (mkWorld 1 [])
           [x5a; x42; x58; x44; x02; x00; x00; x00; x00; x00; x00; x00; x00]
           []).
  - reflexivity.
  - left. reflexivity.
Defined.

(** C5, as stated, fails: the peer sends five bytes in two pieces and
    closes; [_receive] hands back the five bytes and [_get_response]
    returns [False] where the claim has a [ConnectionError]. *)
Lemma early_close_not_raised :
  ZabbixSender._receive [RData [x5a; x42; x58]; RData [x44; x01]] 13
  = (Ok [x5a; x42; x58; x44; x01], []) /\
  ZabbixSender._get_response (fun _ => inl JSONDecodeError) 0
    [RData [x5a; x42; x58]; RData [x44; x01]] (mkWorld 1 [])
  = (Ok (PyBool false), mkWorld 1 [Close 0]).
Proof. split; reflexivity. Qed.

(** C5, amended.  [_receive] reads again and again and gathers bytes
    until it holds [count] of them, or until the peer closes; it returns
    the first [count] bytes of what the peer sent, all of it when that is
    less.  A header cut short by the peer is handed on as it is, and
    [_get_response] then returns [False]: no exception is raised, the
    connection is closed and no body is read. *)
Theorem receive_gathers_until_count_or_close jl n w ds count :
  Forall (fun d => d <> []) ds ->
  (exists s',
     ZabbixSender._receive (map RData ds) count
     = (Ok (firstn (N.to_nat count) (concat ds)), s')) /\
  ((length (concat ds) < 13)%nat ->
   fst (ZabbixSender._receive (map RData ds) 13) = Ok (concat ds) /\
   ZabbixSender._get_response jl n (map RData ds) w
   = (Ok (PyBool false), mkWorld (conns w) (trace w ++ [Close n]))).
Proof.
  intros Hds. split; [now apply _receive_stream|].
  intros Hshort.
  destruct (@_receive_stream ds 13 Hds) as [s' Hs'].
  rewrite firstn_all2 in Hs' by (cbn; lia).
  split; [now rewrite Hs'|].
  apply (@invalid_header jl n _ w _ _ Hs'). right. lia.
Qed.

Lemma receive_gathers_until_count_or_close_witness :
  (exists s',
     ZabbixSender._receive
       (map RData [[x5a; x42; x58]; [x44; x01; x07]; [x00; x00]]) 5
     = (Ok (firstn (N.to_nat 5)
              (concat [[x5a; x42; x58]; [x44; x01; x07]; [x00; x00]])), s')) /\
  ((length (concat [[x5a; x42; x58]; [x44; x01; x07]; [x00; x00]]) < 13)%nat ->
   fst (ZabbixSender._receive
          (map RData [[x5a; x42; x58]; [x44; x01; x07]; [x00; x00]]) 13)
   = Ok (concat [[x5a; x42; x58]; [x44; x01; x07]; [x00; x00]]) /\
   ZabbixSender._get_response (fun _ => inr (PyDict [])) 0
     (map RData [[x5a; x42; x58]; [x44; x01; x07]; [x00; x00]]) (mkWorld 1 [])
   = (Ok (PyBool false),
      mkWorld (conns (mkWorld 1 [])) (trace (mkWorld 1 []) ++ [Close 0]))).
Proof.
  apply (@receive_gathers_until_count_or_close (fun _ => inr (PyDict [])) 0
           (mkWorld 1 []) [[x5a; x42; x58]; [x44; x01; x07]; [x00; x00]] 5).
  repeat constructor; discriminate.
Defined.

(** ** The batch sender: chunking *)

Lemma firstn_add {A} a b : forall l : list A,
  firstn (a + b) l = firstn a l ++ firstn b (skipn a l).
Proof.
  induction a as [|a IH]; intros [|x l]; cbn; rewrite ?firstn_nil;
    try reflexivity.
  now rewrite IH.
Qed.

(** The slices of width [k] that start at the multiples of [k]. *)
Lemma concat_slices {A} (l : list A) k c :
  concat (map (fun i => firstn k (skipn (i * k) l)) (seq 0 c))
  = firstn (c * k) l.
Proof.
  induction c as [|c IH]; [reflexivity|].
  rewrite seq_S, map_app, concat_app, IH. cbn [map concat plus].
  rewrite app_nil_r. replace (S c * k)%nat with (c * k + k)%nat by lia.
  now rewrite firstn_add.
Qed.

Lemma chunks_eq self metrics :
  (1 <= ZabbixSender.chunk_size self)%Z ->
  let k := Z.to_nat (ZabbixSender.chunk_size self) in
  let c := Z.to_nat ((Z.of_nat (length metrics)
                      + ZabbixSender.chunk_size self - 1)
                     / ZabbixSender.chunk_size self) in
  ZabbixSender.chunks self metrics
  = Ok (map (fun i => firstn k (skipn (i * k) metrics)) (seq 0 c)) /\
  (length metrics <= c * k)%nat /\
  (forall i, (i < c)%nat -> (i * k < length metrics)%nat) /\
  (1 <= k)%nat.
Proof.
  intros Hk k c. set (K := ZabbixSender.chunk_size self) in *.
  assert (HK : Z.of_nat k = K) by (subst k; lia).
  split; [|split; [|split]].
  - unfold ZabbixSender.chunks, py_range. fold K.
    replace (K =? 0)%Z with false by (symmetry; apply Z.eqb_neq; lia).
    replace (0 <? K)%Z with true by (symmetry; apply Z.ltb_lt; lia).
    cbn [rbind]. rewrite Z.sub_0_r. fold c. rewrite map_map. f_equal.
    apply map_ext. intros i. unfold slice. f_equal; [f_equal; lia|].
    f_equal. rewrite <- HK. nia.
  - subst c. pose proof (Z.div_mod (Z.of_nat (length metrics) + K - 1) K
                           ltac:(lia)) as Hdm.
    pose proof (Z.mod_pos_bound (Z.of_nat (length metrics) + K - 1) K
                  ltac:(lia)) as Hmb.
    assert (0 <= (Z.of_nat (length metrics) + K - 1) / K)%Z
      by (apply Z.div_pos; lia).
    nia.
  - intros i Hi. subst c.
    pose proof (Z.div_mod (Z.of_nat (length metrics) + K - 1) K
                  ltac:(lia)) as Hdm.
    pose proof (Z.mod_pos_bound (Z.of_nat (length metrics) + K - 1) K
                  ltac:(lia)) as Hmb.
    assert (0 <= (Z.of_nat (length metrics) + K - 1) / K)%Z
      by (apply Z.div_pos; lia).
    nia.
  - lia.
Qed.

(** C4.  With a chunk size of at least one, [send] cuts the list into
    consecutive slices and takes them in order: the slices put end to
    end are the list again, none is empty or longer than the chunk
    size, and all but the last have the chunk size exactly.  An empty
    list gives no slice: [send] returns the all-zero response and the
    world is as it was (no connection was opened). *)
Theorem send_splits_into_chunks jl net dv self metrics w :
  (1 <= ZabbixSender.chunk_size self)%Z ->
  exists cs,
    ZabbixSender.chunks self metrics = Ok cs /\
    concat cs = metrics /\
    Forall (fun c => (1 <= length c)%nat /\
                     (Z.of_nat (length c) <= ZabbixSender.chunk_size self)%Z)
           cs /\
    (forall i, (S i < length cs)%nat ->
               Z.of_nat (length (nth i cs []))
               = ZabbixSender.chunk_size self) /\
    ZabbixSender.send jl net dv self metrics w
    = ZabbixSender.send_chunks jl net dv self cs ZabbixResponse.__init__ w /\
    ZabbixSender.send jl net dv self [] w
    = (Ok (ZabbixResponse.mk 0 0 0 ZabbixResponse.Int0 0), w).
Proof.
  intros Hk.
  destruct (@chunks_eq self metrics Hk) as (Hcs & Hlen & Hlt & Hk1).
  destruct (@chunks_eq self [] Hk) as (Hnil & _).
  set (k := Z.to_nat (ZabbixSender.chunk_size self)) in *.
  set (c := Z.to_nat _) in Hcs, Hlen, Hlt.
  eexists. split; [exact Hcs|].
  split; [rewrite concat_slices; now apply firstn_all2|].
  split; [|split; [|split]].
  - apply Forall_forall. intros x Hx.
    apply in_map_iff in Hx as (i & <- & Hi). apply in_seq in Hi.
    rewrite length_firstn, length_skipn.
    specialize (Hlt i ltac:(lia)). lia.
  - intros i Hi. rewrite length_map, length_seq in Hi.
    rewrite (nth_indep _ [] (firstn k (skipn (0 * k) metrics)))
      by (rewrite length_map, length_seq; lia).
    rewrite (map_nth (fun i => firstn k (skipn (i * k) metrics))),
      seq_nth by lia.
    rewrite length_firstn, length_skipn. cbn [plus].
    specialize (Hlt (S i) Hi). lia.
  - unfold ZabbixSender.send, bind, lift. now rewrite Hcs.
  - unfold ZabbixSender.send, bind, lift. rewrite Hnil.
    cbn [length Z.of_nat]. rewrite Z.div_small by lia. reflexivity.
Qed.

(** ** The batch sender: one exchange, the endpoints of a chunk *)

Lemma str_eqb_eq a b : str_eqb a b = true <-> a = b.
Proof.
  unfold str_eqb. destruct (list_eq_dec N.eq_dec a b); split; intros;
    congruence.
Qed.

(** What [response.get('response') != 'success'] comes to on a dict. *)
Lemma ne_str_get d s :
  assoc (u "response") d <> Some (PyStr s) ->
  ne_str (match assoc (u "response") d with Some x => x | None => PyNone end) s
  = true.
Proof.
  intros H. destruct (assoc (u "response") d) as [[]|]; cbn; try reflexivity.
  apply negb_true_iff. destruct (str_eqb s0 s) eqn:E; [|reflexivity].
  apply str_eqb_eq in E. congruence.
Qed.

Section Exchange.
Variable jl : bytes -> decode_error + pyval.
Variable net : nat -> host_addr -> peer.

Lemma exchange_ok packet a w r w' :
  ZabbixSender.exchange jl net packet a w = (Ok r, w') ->
  ZabbixSender.read_response jl (incoming (net (conns w) a) packet) = Ok r /\
  w' = after_exchange w a packet.
Proof.
  unfold ZabbixSender.exchange, ZabbixSender._get_response, after_exchange,
    bind, emit, raise, lift, ret.
  cbn [conns trace].
  destruct (connect_err (net (conns w) a)); [discriminate|].
  destruct (sendall_err (net (conns w) a) packet); [discriminate|].
  destruct (ZabbixSender.read_response jl _) as [v|e]; [|discriminate].
  cbn [conns trace]. rewrite <- !app_assoc. cbn [app].
  destruct (truthy v).
  - destruct (py_get v (u "response")) as [x|]; [|discriminate].
    destruct (ne_str x (u "success")); [discriminate|].
    intros H. injection H as <- <-. auto.
  - intros H. injection H as <- <-. auto.
Qed.

Lemma exchange_rejected packet a w d :
  connect_err (net (conns w) a) = None ->
  sendall_err (net (conns w) a) packet = None ->
  ZabbixSender.read_response jl (incoming (net (conns w) a) packet)
  = Ok (PyDict d) ->
  d <> [] ->
  assoc (u "response") d <> Some (PyStr (u "success")) ->
  ZabbixSender.exchange jl net packet a w
  = (Raise (Exception_response (PyDict d)), after_exchange w a packet).
Proof.
  intros Hc Hs Hr Hd Ha.
  unfold ZabbixSender.exchange, ZabbixSender._get_response, after_exchange,
    bind, emit, raise, lift, ret.
  cbn [conns trace]. rewrite Hc, Hs, Hr. cbn [conns trace py_get].
  rewrite <- !app_assoc. cbn [app].
  destruct d as [|kv d']; [congruence|]. cbn [truthy].
  now rewrite (ne_str_get _ Ha).
Qed.

Lemma endpoints_app packet us1 : forall us2 r w,
  ZabbixSender.endpoints jl net packet (us1 ++ us2) r w
  = match ZabbixSender.endpoints jl net packet us1 r w with
    | (Ok r', w') => ZabbixSender.endpoints jl net packet us2 r' w'
    | (Raise e, w') => (Raise e, w')
    end.
Proof.
  induction us1 as [|a us1 IH]; intros us2 r w; [reflexivity|].
  cbn [app ZabbixSender.endpoints]. unfold bind.
  destruct (ZabbixSender.exchange jl net packet a w) as [[x|e] w1];
    [apply IH | reflexivity].
Qed.

Lemma endpoints_conns packet us : forall r w r' w',
  ZabbixSender.endpoints jl net packet us r w = (Ok r', w') ->
  conns w' = (conns w + length us)%nat.
Proof.
  induction us as [|a us IH]; intros r w r' w'; cbn [ZabbixSender.endpoints].
  - unfold ret. intros H. injection H as <- <-. cbn. lia.
  - unfold bind.
    destruct (ZabbixSender.exchange jl net packet a w) as [[x|e] w1] eqn:E;
      [|discriminate].
    intros H. apply IH in H. apply exchange_ok in E as [_ ->].
    cbn [length conns after_exchange] in *. lia.
Qed.

Section Chunks.
Variable dv : N -> option N.

Lemma send_chunks_app self cs1 : forall cs2 acc w,
  ZabbixSender.send_chunks jl net dv self (cs1 ++ cs2) acc w
  = match ZabbixSender.send_chunks jl net dv self cs1 acc w with
    | (Ok acc', w') => ZabbixSender.send_chunks jl net dv self cs2 acc' w'
    | (Raise e, w') => (Raise e, w')
    end.
Proof.
  induction cs1 as [|c cs1 IH]; intros cs2 acc w; [reflexivity|].
  cbn [app ZabbixSender.send_chunks]. unfold bind.
  destruct (ZabbixSender._chunk_send jl net self c w) as [[x|e] w1];
    [|reflexivity].
  destruct (ZabbixResponse.parse dv acc x) as [[[]|e] acc'];
    [apply IH | reflexivity].
Qed.

End Chunks.
End Exchange.

(** ** The batch sender: rejection *)

Lemma packet_of_inv c packet :
  packet_of c = Ok packet ->
  exists request,
    ZabbixSender._create_request (ZabbixSender._create_messages c)
    = Ok request /\
    ZabbixSender._create_packet request = Ok packet.
Proof.
  unfold packet_of.
  destruct (ZabbixSender._create_request _) as [request|]; [|discriminate].
  intros H. now exists request.
Qed.

(** C3, as stated, fails on an empty object: its [response] field is not
    ["success"] (there is none), yet the truth test of the guard skips
    it; the next endpoint is tried, and the call goes through. *)
Lemma empty_object_not_rejected :
  ZabbixSender.read_response sample_loads
    (incoming (net_first_empty 0 server_a) []) = Ok (PyDict []) /\
  rbind (py_get (PyDict []) (u "response"))
        (fun r => Ok (ne_str r (u "success"))) = Ok true /\
  ZabbixSender.send sample_loads net_first_empty ascii_digit
    (ZabbixSender.mk 1 [server_a; server_b]) [sample_metric] (mkWorld 0 [])
  = (Ok (ZabbixResponse.mk 1 0 1 (ZabbixResponse.Dec (mkDec 42 (-6))) 1),
     after_exchange (after_exchange (mkWorld 0 []) server_a sample_packet)
       server_b sample_packet).
Proof. repeat split; vm_compute; reflexivity. Qed.

(** C3, amended.  A reply that decodes to a non-empty object whose
    [response] field is missing or is not the string ["success"] makes
    [send] raise [Exception(response)] with that reply, at once: the
    world the call leaves is the one right after the close of that
    connection, so no further endpoint of the chunk and no further chunk
    is tried.  The earlier chunks, and the earlier endpoints of this
    chunk, are those that went through before. *)
Theorem rejection_aborts_send jl net dv self metrics
    cs_pre c cs_post acc w0 w1 us_pre a us_post packet r w2 d :
  ZabbixSender.chunks self metrics = Ok (cs_pre ++ c :: cs_post) ->
  ZabbixSender.send_chunks jl net dv self cs_pre ZabbixResponse.__init__ w0
  = (Ok acc, w1) ->
  ZabbixSender.zabbix_uri self = us_pre ++ a :: us_post ->
  packet_of c = Ok packet ->
  ZabbixSender.endpoints jl net packet us_pre None w1 = (Ok r, w2) ->
  connect_err (net (conns w2) a) = None ->
  sendall_err (net (conns w2) a) packet = None ->
  ZabbixSender.read_response jl (incoming (net (conns w2) a) packet)
  = Ok (PyDict d) ->
  d <> [] ->
  assoc (u "response") d <> Some (PyStr (u "success")) ->
  ZabbixSender.send jl net dv self metrics w0
  = (Raise (Exception_response (PyDict d)), after_exchange w2 a packet).
Proof.
  intros Hcs Hpre Huri Hpk Hend Hc Hs Hr Hd Ha.
  unfold ZabbixSender.send, bind, lift. rewrite Hcs.
  rewrite send_chunks_app, Hpre.
  cbn [ZabbixSender.send_chunks]. unfold bind.
  replace (ZabbixSender._chunk_send jl net self c w1)
    with (@Raise pyval (Exception_response (PyDict d)),
          after_exchange w2 a packet); [reflexivity|].
  apply packet_of_inv in Hpk as (request & Hreq & Hpk).
  unfold ZabbixSender._chunk_send, bind, lift. rewrite Hreq, Hpk, Huri.
  rewrite endpoints_app, Hend. cbn [ZabbixSender.endpoints]. unfold bind.
  now rewrite (@exchange_rejected jl net packet a w2 d).
Qed.

Lemma rejection_aborts_send_witness :
  ZabbixSender.send sample_loads net_fourth_rejects ascii_digit
    (ZabbixSender.mk 1 [server_a; server_b])
    [sample_metric; sample_metric; sample_metric] (mkWorld 0 [])
  = (Raise (Exception_response
              (PyDict [(u "response", PyStr (u "failed"));
                       (u "info", PyStr (u "bad host"))])),
     after_exchange
       (after_exchange
          (after_exchange
             (after_exchange (mkWorld 0 []) server_a sample_packet)
             server_b sample_packet)
          server_a sample_packet)
       server_b sample_packet).
Proof.
  apply (@rejection_aborts_send sample_loads net_fourth_rejects ascii_digit
           (ZabbixSender.mk 1 [server_a; server_b])
           [sample_metric; sample_metric; sample_metric]
           [[sample_metric]] [sample_metric] [[sample_metric]]
           (ZabbixResponse.mk 1 0 1 (ZabbixResponse.Dec (mkDec 42 (-6))) 1)
           (mkWorld 0 [])
           (after_exchange
              (after_exchange (mkWorld 0 []) server_a sample_packet)
              server_b sample_packet)
           [server_a] server_b [] sample_packet
           (Some (reply "success" info_1))
           (after_exchange
              (after_exchange
                 (after_exchange (mkWorld 0 []) server_a sample_packet)
                 server_b sample_packet)
              server_a sample_packet)
           [(u "response", PyStr (u "failed"));
            (u "info", PyStr (u "bad host"))]).
  - vm_compute. reflexivity.
  - vm_compute. reflexivity.
  - reflexivity.
  - vm_compute. reflexivity.
  - vm_compute. reflexivity.
  - reflexivity.
  - reflexivity.
  - vm_compute. reflexivity.
  - discriminate.
  - vm_compute. discriminate.
Defined.

(** ** The batch sender: which reply is aggregated *)

Section LastEndpoint.
Variable jl : bytes -> decode_error + pyval.
Variable net : nat -> host_addr -> peer.
Variable dv : N -> option N.
Variable self : ZabbixSender.t.
Variable us : list host_addr.
Variable last : host_addr.
Hypothesis Huri : ZabbixSender.zabbix_uri self = us ++ [last].

(** The reply [_chunk_send] returns is the one read on the connection
    to the last endpoint. *)
Lemma chunk_send_last c w r w' :
  ZabbixSender._chunk_send jl net self c w = (Ok r, w') ->
  exists packet,
    packet_of c = Ok packet /\
    ZabbixSender.read_response jl
      (incoming (net (conns w + length us) last) packet) = Ok r /\
    conns w' = (conns w + length (ZabbixSender.zabbix_uri self))%nat.
Proof.
  unfold ZabbixSender._chunk_send, packet_of, bind, lift.
  destruct (ZabbixSender._create_request _) as [request|]; [|discriminate].
  cbn [rbind].
  destruct (ZabbixSender._create_packet request) as [packet|];
    [|discriminate].
  rewrite Huri, endpoints_app.
  destruct (ZabbixSender.endpoints jl net packet us None w)
    as [[r0|] w1] eqn:E1; [|discriminate].
  apply endpoints_conns in E1.
  cbn [ZabbixSender.endpoints]. unfold bind, ret.
  destruct (ZabbixSender.exchange jl net packet last w1)
    as [[x|] w2] eqn:E2; [|discriminate].
  apply exchange_ok in E2 as [Hr ->].
  intros H. injection H as <- <-.
  exists packet. rewrite <- E1, length_app.
  cbn [after_exchange conns length]. repeat split; auto. lia.
Qed.

Lemma send_chunks_last b cs : forall s acc w agg w',
  conns w = (b + s * length (ZabbixSender.zabbix_uri self))%nat ->
  ZabbixSender.send_chunks jl net dv self cs acc w = (Ok agg, w') ->
  exists replies,
    Forall2
      (fun (ic : nat * list ZabbixMetric.t) reply =>
         exists packet,
           packet_of (snd ic) = Ok packet /\
           ZabbixSender.read_response jl
             (incoming
                (net (b + fst ic * length (ZabbixSender.zabbix_uri self)
                      + length us) last) packet) = Ok reply)
      (combine (seq s (length cs)) cs) replies /\
    parse_all dv replies acc = Ok agg /\
    conns w'
    = (b + (s + length cs) * length (ZabbixSender.zabbix_uri self))%nat.
Proof.
  induction cs as [|c cs IH]; intros s acc w agg w' Hw;
    cbn [ZabbixSender.send_chunks].
  - unfold ret. intros H. injection H as <- <-.
    exists []. cbn. repeat split; [constructor | lia].
  - unfold bind.
    destruct (ZabbixSender._chunk_send jl net self c w)
      as [[r|] w1] eqn:E1; [|discriminate].
    destruct (ZabbixResponse.parse dv acc r) as [[[]|] acc1] eqn:E2;
      [|unfold raise; discriminate].
    intros H.
    apply chunk_send_last in E1 as (packet & Hpk & Hr & Hc).
    apply (IH (S s)) in H as (replies & HF & HP & Hc'); [|cbn; lia].
    exists (r :: replies). cbn [length seq combine parse_all].
    rewrite E2. repeat split; [|exact HP|lia].
    constructor; [|exact HF].
    exists packet. cbn [fst snd]. rewrite <- Hw. auto.
Qed.

End LastEndpoint.

(** C8.  With several endpoints, what a successful [send] returns is
    made of one reply for each chunk, the one read on the connection to
    the last endpoint of the list ([us] are the endpoints before it):
    the replies of the other endpoints are in no sum.  The connection to
    the last endpoint for chunk [i] is the one numbered
    [i * length uris + length us] after those open at the start. *)
Theorem aggregate_is_of_last_endpoint jl net dv self us last metrics cs w
    agg w' :
  ZabbixSender.zabbix_uri self = us ++ [last] ->
  ZabbixSender.chunks self metrics = Ok cs ->
  ZabbixSender.send jl net dv self metrics w = (Ok agg, w') ->
  exists replies,
    Forall2
      (fun (ic : nat * list ZabbixMetric.t) reply =>
         exists packet,
           packet_of (snd ic) = Ok packet /\
           ZabbixSender.read_response jl
             (incoming
                (net (conns w
                      + fst ic * length (ZabbixSender.zabbix_uri self)
                      + length us) last) packet) = Ok reply)
      (combine (seq 0 (length cs)) cs) replies /\
    parse_all dv replies ZabbixResponse.__init__ = Ok agg /\
    conns w'
    = (conns w + length cs * length (ZabbixSender.zabbix_uri self))%nat.
Proof.
  intros Huri Hcs Hsend.
  unfold ZabbixSender.send, bind, lift in Hsend. rewrite Hcs in Hsend.
  apply (@send_chunks_last jl net dv self us last Huri (conns w) cs 0)
    in Hsend; [exact Hsend | lia].
Qed.

Lemma aggregate_is_of_last_endpoint_witness :
  exists replies,
    Forall2
      (fun (ic : nat * list ZabbixMetric.t) reply =>
         exists packet,
           packet_of (snd ic) = Ok packet /\
           ZabbixSender.read_response sample_loads
             (incoming
                (net_a7_b1
                   (conns (mkWorld 0 [])
                    + fst ic * length (ZabbixSender.zabbix_uri
                                         (ZabbixSender.mk 2
                                            [server_a; server_b]))
                    + length [server_a]) server_b) packet) = Ok reply)
      (combine (seq 0 (length [[sample_metric; sample_metric];
                               [sample_metric]]))
         [[sample_metric; sample_metric]; [sample_metric]]) replies /\
    parse_all ascii_digit replies ZabbixResponse.__init__
    = Ok (ZabbixResponse.mk 2 0 2 (ZabbixResponse.Dec (mkDec 84 (-6))) 2) /\
    conns (after_exchange
             (after_exchange
                (after_exchange
                   (after_exchange (mkWorld 0 []) server_a sample_packet2)
                   server_b sample_packet2)
                server_a sample_packet)
             server_b sample_packet)
    = (conns (mkWorld 0 [])
       + length [[sample_metric; sample_metric]; [sample_metric]]
         * length (ZabbixSender.zabbix_uri
                     (ZabbixSender.mk 2 [server_a; server_b])))%nat.
Proof.
  apply (@aggregate_is_of_last_endpoint sample_loads net_a7_b1 ascii_digit
           (ZabbixSender.mk 2 [server_a; server_b]) [server_a] server_b
           [sample_metric; sample_metric; sample_metric]
           [[sample_metric; sample_metric]; [sample_metric]]
           (mkWorld 0 [])
           (ZabbixResponse.mk 2 0 2 (ZabbixResponse.Dec (mkDec 84 (-6))) 2)
           (after_exchange
              (after_exchange
                 (after_exchange
                    (after_exchange (mkWorld 0 []) server_a sample_packet2)
                    server_b sample_packet2)
                 server_a sample_packet)
              server_b sample_packet)).
  - reflexivity.
  - vm_compute. reflexivity.
  - vm_compute. reflexivity.
Defined.

(** ** Instances *)

Lemma send_splits_into_chunks_witness :
  exists cs,
    ZabbixSender.chunks (ZabbixSender.mk 2 [server_a])
      [sample_metric; sample_metric; sample_metric] = Ok cs /\
    concat cs = [sample_metric; sample_metric; sample_metric] /\
    Forall (fun c => (1 <= length c)%nat /\
                     (Z.of_nat (length c)
                      <= ZabbixSender.chunk_size
                           (ZabbixSender.mk 2 [server_a]))%Z) cs /\
    (forall i, (S i < length cs)%nat ->
               Z.of_nat (length (nth i cs []))
               = ZabbixSender.chunk_size (ZabbixSender.mk 2 [server_a])) /\
    ZabbixSender.send sample_loads net_a7_b1 ascii_digit
      (ZabbixSender.mk 2 [server_a])
      [sample_metric; sample_metric; sample_metric] (mkWorld 0 [])
    = ZabbixSender.send_chunks sample_loads net_a7_b1 ascii_digit
        (ZabbixSender.mk 2 [server_a]) cs ZabbixResponse.__init__
        (mkWorld 0 []) /\
    ZabbixSender.send sample_loads net_a7_b1 ascii_digit
      (ZabbixSender.mk 2 [server_a]) [] (mkWorld 0 [])
    = (Ok (ZabbixResponse.mk 0 0 0 ZabbixResponse.Int0 0), mkWorld 0 []).
Proof.
  apply (@send_splits_into_chunks sample_loads net_a7_b1 ascii_digit
           (ZabbixSender.mk 2 [server_a])
           [sample_metric; sample_metric; sample_metric] (mkWorld 0 [])).
  simpl. lia.
Defined.

Lemma packet_layout_witness :
  exists body,
    ZabbixSender._create_request (ZabbixSender._create_messages [sample_metric])
    = Ok body /\
    body = map byte_of_N (ZabbixSender.request_text
                            (ZabbixSender._create_messages [sample_metric])) /\
    ZabbixSender._create_packet body
    = Ok ([x5a; x42; x58; x44; x01]
          ++ le_bytes 8 (N.of_nat (length body)) ++ body) /\
    length (le_bytes 8 (N.of_nat (length body))) = 8 /\
    struct_unpack_Q (le_bytes 8 (N.of_nat (length body)))
    = Ok (N.of_nat (length body)).
Proof.
  apply (@packet_layout [sample_metric]).
  vm_compute. reflexivity.
Defined.

(** ** Where the clock is checked *)

(** Case analysis on whatever a hypothesis or the goal matches on. *)
Ltac break_match :=
  match goal with
  | H : context [match ?x with _ => _ end] |- _ => destruct x eqn:?
  | |- context [match ?x with _ => _ end] => destruct x eqn:?
  end.

Ltac not_clock :=
  unfold not_clock_error in *; intros;
  repeat (first [discriminate | congruence | break_match]; subst);
  try congruence.

Lemma nc_cast {A B} e :
  not_clock_error (@Raise A e) -> not_clock_error (@Raise B e).
Proof.
  unfold not_clock_error. intros H H1. apply H. now injection H1 as ->.
Qed.

Lemma nc_encode_utf8 s : not_clock_error (encode_utf8 s).
Proof.
  induction s as [|c s IH]; cbn; [not_clock|].
  destruct (utf8_char c); [|not_clock].
  destruct (encode_utf8 s); cbn; not_clock.
Qed.

Lemma nc_packet_of c : not_clock_error (packet_of c).
Proof.
  unfold packet_of, ZabbixSender._create_request.
  pose proof (nc_encode_utf8
                (ZabbixSender.request_text (ZabbixSender._create_messages c))).
  destruct (encode_utf8 _); cbn; [|not_clock].
  unfold ZabbixSender._create_packet, struct_pack_Q. not_clock.
Qed.

Lemma nc_recv s n : not_clock_error (fst (recv s n)).
Proof. unfold recv. destruct s as [|[] ?]; cbn; not_clock. Qed.

Lemma nc_receive_loop fuel : forall s count buf r s',
  ZabbixSender._receive_loop fuel s count buf = Some (r, s') ->
  not_clock_error r.
Proof.
  induction fuel as [|fuel IH]; intros s count buf r s';
    cbn [ZabbixSender._receive_loop].
  - destruct (_ <? _)%N; intros H; inversion H; not_clock.
  - destruct (_ <? _)%N; [|intros H; inversion H; not_clock].
    pose proof (nc_recv s (count - N.of_nat (length buf))) as Hr.
    destruct (recv s _) as [[[|b chunk]|e] s1]; cbn [fst] in Hr.
    + intros H; inversion H; not_clock.
    + apply IH.
    + intros H; inversion H; subst. exact (nc_cast Hr).
Qed.

Lemma nc_receive s count : not_clock_error (fst (ZabbixSender._receive s count)).
Proof.
  unfold ZabbixSender._receive.
  destruct (ZabbixSender._receive_loop _ s count []) as [[r s']|] eqn:E;
    cbn [fst]; [|not_clock].
  now apply nc_receive_loop in E.
Qed.

Lemma nc_read_response jl s :
  not_clock_error (ZabbixSender.read_response jl s).
Proof.
  unfold ZabbixSender.read_response.
  pose proof (nc_receive s 13) as Hr.
  destruct (ZabbixSender._receive s 13) as [[header|e] s1]; cbn [fst] in Hr;
    cbn [rbind]; [|exact (nc_cast Hr)].
  destruct (_ || _); [not_clock|].
  unfold struct_unpack_Q. destruct (Nat.eqb _ 8); cbn [rbind]; [|not_clock].
  pose proof (nc_recv s1 (le_value (skipn 5 header))) as Hb.
  destruct (fst (recv s1 _)); cbn [rbind]; [|exact (nc_cast Hb)].
  destruct (jl a); not_clock.
Qed.

Lemma nc_exchange jl net packet a w :
  not_clock_error (fst (ZabbixSender.exchange jl net packet a w)).
Proof.
  unfold ZabbixSender.exchange, ZabbixSender._get_response,
    bind, emit, raise, lift, ret.
  cbn [conns trace].
  destruct (connect_err _); cbn [fst]; [not_clock|].
  destruct (sendall_err _ _); cbn [fst]; [not_clock|].
  pose proof (nc_read_response jl (incoming (net (conns w) a) packet)) as Hr.
  destruct (ZabbixSender.read_response jl _) as [v|e]; cbn [fst];
    [|exact (nc_cast Hr)].
  destruct (truthy v); cbn [fst]; [|not_clock].
  unfold py_get. destruct v; cbn [fst]; not_clock.
Qed.

Lemma nc_endpoints jl net packet us : forall r w,
  not_clock_error (fst (ZabbixSender.endpoints jl net packet us r w)).
Proof.
  induction us as [|a us IH]; intros r w; cbn [ZabbixSender.endpoints];
    [cbn; not_clock|].
  unfold bind. pose proof (nc_exchange jl net packet a w) as He.
  destruct (ZabbixSender.exchange jl net packet a w) as [[x|e] w1];
    cbn [fst] in *; [apply IH | exact (nc_cast He)].
Qed.

Lemma nc_chunk_send jl net self c w :
  not_clock_error (fst (ZabbixSender._chunk_send jl net self c w)).
Proof.
  unfold ZabbixSender._chunk_send, bind, lift.
  pose proof (nc_packet_of c) as Hp. unfold packet_of in Hp.
  destruct (ZabbixSender._create_request _) as [request|e]; cbn [rbind fst] in *;
    [|exact (nc_cast Hp)].
  destruct (ZabbixSender._create_packet request) as [packet|e]; cbn [fst];
    [|exact (nc_cast Hp)].
  pose proof (nc_endpoints jl net packet (ZabbixSender.zabbix_uri self) None w)
    as He.
  destruct (ZabbixSender.endpoints _ _ _ _ _ _) as [[[x|]|e] w1];
    cbn [fst] in *; [not_clock | not_clock | exact (nc_cast He)].
Qed.

Lemma nc_int_of_str dv s : not_clock_error (int_of_str dv s).
Proof. unfold int_of_str. not_clock. Qed.

Lemma nc_Decimal_of_str dv s : not_clock_error (Decimal_of_str dv s).
Proof.
  unfold Decimal_of_str.
  match goal with |- context [let (_, _) := ?x in _] => destruct x end.
  not_clock.
Qed.

Lemma nc__fix d : not_clock_error (_fix d).
Proof. unfold _fix. not_clock. Qed.

Lemma nc_dec_add a b : not_clock_error (dec_add a b).
Proof.
  unfold dec_add.
  destruct (_ && _); [apply nc__fix|].
  destruct (coef a =? 0)%N; [apply nc__fix|].
  destruct (coef b =? 0)%N; [apply nc__fix|].
  destruct (_normalize a b). apply nc__fix.
Qed.

Lemma nc_time_add t d : not_clock_error (ZabbixResponse.time_add t d).
Proof. destruct t; apply nc_dec_add. Qed.

Lemma nc_group_int dv res i :
  not_clock_error (rbind (ZabbixResponse.group res i) (int_of_str dv)).
Proof.
  destruct res; cbn [ZabbixResponse.group rbind];
    [apply nc_int_of_str | not_clock].
Qed.

Lemma nc_group_time dv res i t :
  not_clock_error
    (rbind (rbind (ZabbixResponse.group res i) (Decimal_of_str dv))
           (ZabbixResponse.time_add t)).
Proof.
  destruct res; cbn [ZabbixResponse.group rbind]; [|not_clock].
  pose proof (nc_Decimal_of_str dv (nth (i - 1) l [])) as Hd.
  destruct (Decimal_of_str dv _); cbn [rbind];
    [apply nc_time_add | exact (nc_cast Hd)].
Qed.

Lemma nc_parse dv self r :
  not_clock_error (fst (ZabbixResponse.parse dv self r)).
Proof.
  unfold ZabbixResponse.parse.
  destruct (py_get r (u "info")) as [info|e] eqn:Eg; cbn [fst].
  2:{ unfold py_get in Eg. not_clock. }
  destruct (ZabbixResponse.regex_search dv info) as [res|e] eqn:Es;
    cbn [fst].
  2:{ unfold ZabbixResponse.regex_search in Es. not_clock. }
  pose proof (nc_group_int dv res 1) as H1.
  destruct (rbind (ZabbixResponse.group res 1) _); cbn [fst];
    [|exact (nc_cast H1)].
  pose proof (nc_group_int dv res 2) as H2.
  destruct (rbind (ZabbixResponse.group res 2) _); cbn [fst];
    [|exact (nc_cast H2)].
  pose proof (nc_group_int dv res 3) as H3.
  destruct (rbind (ZabbixResponse.group res 3) _); cbn [fst];
    [|exact (nc_cast H3)].
  cbn [ZabbixResponse._time].
  pose proof (nc_group_time dv res 4 (ZabbixResponse._time self)) as H4.
  destruct (rbind (rbind (ZabbixResponse.group res 4) _) _); cbn [fst];
    [not_clock | exact (nc_cast H4)].
Qed.

Lemma nc_send_chunks jl net dv self cs : forall acc w,
  not_clock_error (fst (ZabbixSender.send_chunks jl net dv self cs acc w)).
Proof.
  induction cs as [|c cs IH]; intros acc w; cbn [ZabbixSender.send_chunks];
    [cbn; not_clock|].
  unfold bind. pose proof (nc_chunk_send jl net self c w) as Hc.
  destruct (ZabbixSender._chunk_send jl net self c w) as [[r|e] w1];
    cbn [fst] in *; [|exact (nc_cast Hc)].
  pose proof (nc_parse dv acc r) as Hp.
  destruct (ZabbixResponse.parse dv acc r) as [[[]|e] acc1];
    cbn [fst] in *; [apply IH | exact (nc_cast Hp)].
Qed.

Lemma nc_send jl net dv self metrics w :
  not_clock_error (fst (ZabbixSender.send jl net dv self metrics w)).
Proof.
  unfold ZabbixSender.send, bind, lift.
  destruct (ZabbixSender.chunks self metrics) as [cs|e] eqn:E; cbn [fst];
    [apply nc_send_chunks|].
  unfold ZabbixSender.chunks, py_range, rbind in E. not_clock.
Qed.

(** [int] of a finite float truncates towards zero: the result has the
    sign of the float, or is zero, and its absolute value is the whole
    part of the float's. *)
Lemma py_int_float_truncates m e :
  exists c,
    py_int (PyFloat (FFinite m e)) = Ok c /\
    (0 <= c * m)%Z /\
    (0 <= e -> c = m * 2 ^ e)%Z /\
    (e < 0 ->
     Z.abs c * 2 ^ (- e) <= Z.abs m < (Z.abs c + 1) * 2 ^ (- e))%Z.
Proof.
  cbn [py_int]. destruct (Z.leb_spec 0 e) as [He|He].
  - eexists. split; [reflexivity|]. split; [|split; [reflexivity|lia]].
    pose proof (Z.pow_nonneg 2 e ltac:(lia)). nia.
  - eexists. split; [reflexivity|].
    set (d := (2 ^ (- e))%Z).
    assert (Hd : (0 < d)%Z) by (apply Z.pow_pos_nonneg; lia).
    split; [|split; [lia|intros _]].
    + destruct (Z.le_gt_cases 0 m) as [Hm|Hm].
      * pose proof (Z.quot_pos m d Hm Hd). nia.
      * pose proof (Z.quot_pos (- m) d ltac:(lia) Hd) as Hq.
        rewrite Z.quot_opp_l in Hq by lia. nia.
    + rewrite <- Z.quot_abs by lia. rewrite (Z.abs_eq d) by lia.
      rewrite Z.quot_div_nonneg by lia.
      pose proof (Z.mul_div_le (Z.abs m) d Hd).
      pose proof (Z.mul_succ_div_gt (Z.abs m) d Hd). lia.
Qed.

(** C9, amended.  A clock that is true in a condition and is neither an
    [int] nor a [float] makes the constructor raise; this is the only
    place the exception comes from, [send] never raises it.  The other
    clocks that are true in a condition: an [int] is stored as it is,
    negative or not, and [True] as 1; a finite [float] is stored
    truncated towards zero; [nan] and the infinities make [int(clock)]
    raise [ValueError] and [OverflowError]. *)
Theorem clock_checked_at_construction host key value clock z m e :
  truthy clock = true ->
  isinstance_float_int clock = false ->
  truthy (PyInt z) = true ->
  truthy (PyFloat (FFinite m e)) = true ->
  ZabbixMetric.__init__ host key value clock = Raise Exception_clock /\
  ZabbixMetric.__init__ host key value (PyInt z)
  = Ok (ZabbixMetric.mk host key value (Some z)) /\
  ZabbixMetric.__init__ host key value (PyBool true)
  = Ok (ZabbixMetric.mk host key value (Some 1%Z)) /\
  (exists c,
     ZabbixMetric.__init__ host key value (PyFloat (FFinite m e))
     = Ok (ZabbixMetric.mk host key value (Some c)) /\
     (0 <= c * m)%Z /\
     (0 <= e -> c = m * 2 ^ e)%Z /\
     (e < 0 ->
      Z.abs c * 2 ^ (- e) <= Z.abs m < (Z.abs c + 1) * 2 ^ (- e))%Z) /\
  ZabbixMetric.__init__ host key value (PyFloat FNaN) = Raise ValueError /\
  (forall negative,
     ZabbixMetric.__init__ host key value (PyFloat (FInf negative))
     = Raise OverflowError) /\
  (forall jl net dv self metrics w,
     fst (ZabbixSender.send jl net dv self metrics w)
     <> Raise Exception_clock).
Proof.
  intros Ht Hi Hz Hm. unfold ZabbixMetric.__init__.
  rewrite Ht, Hi, Hz, Hm. cbn [isinstance_float_int truthy].
  repeat match goal with |- _ /\ _ => split end; try reflexivity.
  - destruct (py_int_float_truncates m e) as (c & -> & H).
    exists c. split; [reflexivity|exact H].
  - intros. apply nc_send.
Qed.

Lemma clock_checked_at_construction_witness :
  ZabbixMetric.__init__ (u "localhost") (u "cpu[usage]") (u "20")
    (PyStr (u "yesterday")) = Raise Exception_clock /\
  ZabbixMetric.__init__ (u "localhost") (u "cpu[usage]") (u "20")
    (PyInt (-5))
  = Ok (ZabbixMetric.mk (u "localhost") (u "cpu[usage]") (u "20")
          (Some (-5)%Z)) /\
  ZabbixMetric.__init__ (u "localhost") (u "cpu[usage]") (u "20")
    (PyBool true)
  = Ok (ZabbixMetric.mk (u "localhost") (u "cpu[usage]") (u "20")
          (Some 1%Z)) /\
  (exists c,
     ZabbixMetric.__init__ (u "localhost") (u "cpu[usage]") (u "20")
       (PyFloat (FFinite (-7) (-1)))
     = Ok (ZabbixMetric.mk (u "localhost") (u "cpu[usage]") (u "20")
             (Some c)) /\
     (0 <= c * -7)%Z /\
     (0 <= -1 -> c = -7 * 2 ^ (-1))%Z /\
     (-1 < 0 ->
      Z.abs c * 2 ^ (- -1) <= Z.abs (-7) < (Z.abs c + 1) * 2 ^ (- -1))%Z) /\
  ZabbixMetric.__init__ (u "localhost") (u "cpu[usage]") (u "20")
    (PyFloat FNaN) = Raise ValueError /\
  (forall negative,
     ZabbixMetric.__init__ (u "localhost") (u "cpu[usage]") (u "20")
       (PyFloat (FInf negative))
     = Raise OverflowError) /\
  (forall jl net dv self metrics w,
     fst (ZabbixSender.send jl net dv self metrics w)
     <> Raise Exception_clock).
Proof.
  apply (@clock_checked_at_construction (u "localhost") (u "cpu[usage]")
           (u "20") (PyStr (u "yesterday")) (-5)%Z (-7)%Z (-1)%Z).
  - reflexivity.
  - reflexivity.
  - reflexivity.
  - reflexivity.
Defined.


(* ================================================================== *)
(** * Part IV.  Further properties                                      *)
(* ================================================================== *)

(** ** The request is seven-bit clean *)

Lemma is_printable_app a b :
  is_printable (a ++ b) = is_printable a && is_printable b.
Proof. apply forallb_app. Qed.

Lemma is_printable_flat_map (f : N -> str) s :
  (forall c, is_printable (f c) = true) -> is_printable (flat_map f s) = true.
Proof.
  intros Hf. induction s as [|c s IH]; cbn; [reflexivity|].
  now rewrite is_printable_app, Hf, IH.
Qed.

Lemma printable_hex_digit n :
  (n < 16)%N -> ((32 <=? hex_digit n) && (hex_digit n <=? 126))%N = true.
Proof.
  intros H. unfold hex_digit. apply andb_true_iff.
  destruct (n <? 10)%N; split; apply N.leb_le; lia.
Qed.

Lemma is_printable_u_escape n : is_printable (u_escape n) = true.
Proof.
  unfold u_escape, hex4, is_printable. cbn [app forallb].
  rewrite !printable_hex_digit by (apply N.mod_lt; discriminate).
  reflexivity.
Qed.

Lemma is_printable_replace c : is_printable (replace c) = true.
Proof.
  unfold replace, ESCAPE_DCT.
  repeat match goal with
         | |- context [if ?b then _ else _] => destruct b
         end;
    try reflexivity;
    rewrite ?is_printable_app, ?is_printable_u_escape; reflexivity.
Qed.

Lemma is_printable_basestring s :
  is_printable (py_encode_basestring_ascii s) = true.
Proof.
  unfold py_encode_basestring_ascii.
  rewrite !is_printable_app, is_printable_flat_map; [reflexivity|].
  intros c. destruct (ESCAPE_ASCII c) eqn:E; [apply is_printable_replace|].
  unfold ESCAPE_ASCII in E. cbn. rewrite andb_true_r.
  apply orb_false_iff in E as [_ E]. now apply negb_false_iff in E.
Qed.

Lemma is_printable_uint_str d : is_printable (uint_str d) = true.
Proof. induction d; cbn; auto. Qed.

Lemma is_printable_int_str z : is_printable (int_str z) = true.
Proof.
  unfold int_str. destruct (Z.to_int z); cbn; apply is_printable_uint_str.
Qed.

Lemma is_printable_join sep l :
  is_printable sep = true -> Forall (fun x => is_printable x = true) l ->
  is_printable (join sep l) = true.
Proof.
  intros Hs Hl. induction Hl as [|x l Hx Hl IH]; [reflexivity|].
  destruct l as [|y l]; [exact Hx|].
  change (join sep (x :: y :: l)) with (x ++ sep ++ join sep (y :: l)).
  now rewrite !is_printable_app, Hx, Hs, IH.
Qed.

Lemma is_printable_repr m : is_printable (ZabbixMetric.__repr__ m) = true.
Proof.
  unfold ZabbixMetric.__repr__, json_dumps.
  rewrite !is_printable_app, is_printable_join; [reflexivity | reflexivity |].
  apply Forall_forall. intros x Hx. apply in_map_iff in Hx as [[k a] [<- _]].
  unfold dumps_item. cbn [fst snd].
  rewrite !is_printable_app, is_printable_basestring.
  destruct a; cbn [dumps_attr];
    rewrite ?is_printable_basestring, ?is_printable_int_str; reflexivity.
Qed.

Lemma is_printable_request_text metrics :
  is_printable
    (ZabbixSender.request_text (ZabbixSender._create_messages metrics))
  = true.
Proof.
  unfold ZabbixSender.request_text, ZabbixSender._create_messages.
  rewrite !is_printable_app, is_printable_join; [reflexivity | reflexivity |].
  apply Forall_forall. intros x Hx. apply in_map_iff in Hx as [m [<- _]].
  apply is_printable_repr.
Qed.

Lemma is_printable_is_ascii s : is_printable s = true -> is_ascii s = true.
Proof.
  unfold is_printable, is_ascii. rewrite !forallb_forall.
  intros H c Hc. specialize (H c Hc).
  apply andb_true_iff in H as [_ H]. apply N.leb_le in H.
  apply N.ltb_lt. lia.
Qed.

(** X1.  Whatever the host, key and value of the metrics hold (quotes,
    control characters, characters beyond ASCII, lone surrogates),
    [_create_request] does not raise, and the body has one byte for each
    character of the text, each of them printable ASCII. *)
Theorem request_is_printable_ascii metrics :
  exists body,
    ZabbixSender._create_request (ZabbixSender._create_messages metrics)
    = Ok body /\
    length body
    = length (ZabbixSender.request_text
                (ZabbixSender._create_messages metrics)) /\
    Forall (fun b => (32 <= Byte.to_N b <= 126)%N) body.
Proof.
  set (text := ZabbixSender.request_text _).
  pose proof (is_printable_request_text metrics) as Hp. fold text in Hp.
  exists (map byte_of_N text).
  split; [apply encode_utf8_ascii, is_printable_is_ascii, Hp|].
  split; [apply length_map|].
  apply Forall_forall. intros b Hb.
  apply in_map_iff in Hb as (c & <- & Hc).
  unfold is_printable in Hp. rewrite forallb_forall in Hp.
  specialize (Hp c Hc). apply andb_true_iff in Hp as [H1 H2].
  apply N.leb_le in H1, H2.
  rewrite to_N_byte_of_N, N.mod_small by lia. lia.
Qed.

(** ** Frames that come back *)

Lemma after_bytes_0 ds : after_bytes 0 ds = ds.
Proof. destruct ds; reflexivity. Qed.

Lemma _receive_loop_rest ds : forall fuel count buf,
  Forall (fun d => d <> []) ds ->
  (N.to_nat count - length buf <= fuel)%nat ->
  ZabbixSender._receive_loop fuel (map RData ds) count buf
  = Some (Ok (buf ++ firstn (N.to_nat count - length buf) (concat ds)),
          map RData (after_bytes (N.to_nat count - length buf) ds)).
Proof.
  induction ds as [|d ds IH]; intros fuel count buf Hds Hfuel.
  - destruct fuel; cbn; destruct (N.of_nat (length buf) <? count)%N eqn:E;
      rewrite ?firstn_nil, ?app_nil_r; try reflexivity.
    apply N.ltb_lt in E. lia.
  - inversion Hds as [|? ? Hd Hds']; subst.
    assert (Hexit : forall f b, (N.to_nat count <= length b)%nat ->
              forall s, ZabbixSender._receive_loop f s count b
                        = Some (Ok b, s)).
    { intros f b Hb s. destruct f; cbn;
        replace (N.of_nat (length b) <? count)%N with false
          by (symmetry; apply N.ltb_ge; lia); reflexivity. }
    destruct (N.ltb_spec (N.of_nat (length buf)) count) as [E|E].
    2:{ rewrite Hexit by lia.
        replace (N.to_nat count - length buf)%nat with 0%nat by lia.
        now rewrite firstn_0, app_nil_r, after_bytes_0. }
    destruct fuel as [|fuel]; [lia|].
    cbn [ZabbixSender._receive_loop map].
    replace (N.of_nat (length buf) <? count)%N with true
      by (symmetry; apply N.ltb_lt; lia).
    destruct (@recv_data d (map RData ds) (count - N.of_nat (length buf)) Hd
                ltac:(lia)) as (Hr & Hne & Hn).
    rewrite Hr. clear Hr.
    set (k := (N.to_nat count - length buf)%nat).
    set (n := N.to_nat (N.min (count - N.of_nat (length buf))
                          (N.of_nat (length d)))) in *.
    destruct (firstn n d) as [|b chunk] eqn:Ec; [congruence|].
    rewrite <- Ec. clear Hne.
    cbn [after_bytes concat].
    replace (Nat.eqb k 0) with false
      by (symmetry; apply Nat.eqb_neq; subst k; lia).
    destruct (N.leb_spec (N.of_nat (length d))
                (count - N.of_nat (length buf))) as [Hle|Hgt].
    + assert (n = length d) by lia.
      replace (length d <=? k)%nat with true
        by (symmetry; apply Nat.leb_le; subst k; lia).
      replace (firstn n d) with d by (symmetry; apply firstn_all2; lia).
      rewrite IH by (rewrite ?length_app; auto; lia).
      rewrite length_app, <- app_assoc, firstn_app.
      rewrite (firstn_all2 d) by (subst k; lia).
      replace (k - length d)%nat
        with (N.to_nat count - (length buf + length d))%nat
        by (subst k; lia).
      reflexivity.
    + assert (n = k) by (subst k; lia).
      replace (length d <=? k)%nat with false
        by (symmetry; apply Nat.leb_gt; subst k; lia).
      rewrite Hexit by (rewrite length_app, length_firstn; lia).
      rewrite firstn_app. replace (k - length d)%nat with 0%nat by lia.
      rewrite firstn_0, app_nil_r. subst n. rewrite H. reflexivity.
Qed.

(** [_receive] on what a peer sends: the bytes it returns, and what is
    left on the socket for the reads that follow. *)
Lemma _receive_rest ds count :
  Forall (fun d => d <> []) ds ->
  ZabbixSender._receive (map RData ds) count
  = (Ok (firstn (N.to_nat count) (concat ds)),
     map RData (after_bytes (N.to_nat count) ds)).
Proof.
  intros Hds. unfold ZabbixSender._receive.
  rewrite (@_receive_loop_rest ds (N.to_nat count) count [] Hds)
    by (cbn; lia).
  cbn. now rewrite Nat.sub_0_r.
Qed.

Lemma startswith_app p b : ZabbixSender.startswith (p ++ b) p = true.
Proof.
  induction p as [|x p IH]; cbn; [now destruct b|].
  rewrite IH, andb_true_r. now destruct x.
Qed.

Lemma recv_first ds n :
  fst (recv (map RData ds) n) = Ok (firstn (N.to_nat n) (hd [] ds)).
Proof.
  destruct ds as [|d ds]; cbn; [now rewrite firstn_nil|].
  f_equal. destruct (N.min_spec n (N.of_nat (length d))) as [[H ->]|[H ->]];
    [reflexivity|].
  rewrite Nat2N.id. rewrite !firstn_all2; auto; lia.
Qed.

(** A reply that starts with a valid header: the body handed to the
    decoder is what the one [recv] after the header returns. *)
Lemma read_response_frame jl ds n :
  Forall (fun d => d <> []) ds ->
  (n < 2 ^ 64)%N ->
  firstn 13 (concat ds) = ZabbixSender.ZBXD1 ++ le_bytes 8 n ->
  ZabbixSender.read_response jl (map RData ds)
  = decode jl (firstn (N.to_nat n) (hd [] (after_bytes 13 ds))).
Proof.
  intros Hds Hn Hh. unfold ZabbixSender.read_response.
  rewrite (_receive_rest 13 Hds).
  change (N.to_nat 13) with 13%nat. rewrite Hh. cbn [rbind].
  rewrite startswith_app.
  replace (length (ZabbixSender.ZBXD1 ++ le_bytes 8 n)) with 13%nat
    by (rewrite length_app, length_le_bytes; reflexivity).
  cbn [negb orb Nat.eqb].
  change (skipn 5 (ZabbixSender.ZBXD1 ++ le_bytes 8 n)) with (le_bytes 8 n).
  destruct (struct_Q_roundtrip Hn) as [_ ->]. cbn [rbind].
  rewrite recv_first. reflexivity.
Qed.

Lemma after_bytes_app pre : forall k rest,
  Forall (fun d => d <> []) pre ->
  after_bytes (length (concat pre) + k) (pre ++ rest) = after_bytes k rest.
Proof.
  induction pre as [|d pre IH]; intros k rest Hpre; [reflexivity|].
  inversion Hpre as [|? ? Hd Hpre']; subst.
  cbn [concat app after_bytes]. rewrite length_app.
  assert (length d <> 0)%nat by (destruct d; cbn; congruence).
  replace (Nat.eqb (length d + length (concat pre) + k) 0) with false
    by (symmetry; apply Nat.eqb_neq; lia).
  replace (length d <=? length d + length (concat pre) + k)%nat with true
    by (symmetry; apply Nat.leb_le; lia).
  replace (length d + length (concat pre) + k - length d)%nat
    with (length (concat pre) + k)%nat by lia.
  now apply IH.
Qed.

Lemma after_bytes_last x tail :
  x ++ tail <> [] ->
  firstn (length tail) (hd [] (after_bytes (length x) [x ++ tail])) = tail.
Proof.
  intros Hne. cbn [after_bytes].
  destruct (Nat.eqb_spec (length x) 0) as [E|E].
  - destruct x; [|discriminate]. cbn. apply firstn_all.
  - rewrite length_app.
    destruct (Nat.leb_spec (length x + length tail) (length x)) as [H|H].
    + assert (length tail = 0)%nat by lia. destruct tail; [|discriminate].
      replace (length x - (length x + length (@nil byte)))%nat with 0%nat
        by lia.
      reflexivity.
    + cbn [hd]. rewrite skipn_app, skipn_all, Nat.sub_diag. cbn.
      apply firstn_all.
Qed.

(** X2.  Round trip of the frame.  A peer sends the frame of a body: the
    header, split into pieces in whatever way, and the body in one piece
    (by itself or together with the last bytes of the header).  Then
    [_get_response] decodes exactly that body.  The frame is the one
    [_create_packet] builds. *)
Theorem frame_round_trip jl body pre x :
  (N.of_nat (length body) < 2 ^ 64)%N ->
  Forall (fun d => d <> []) pre ->
  concat pre ++ x
  = ZabbixSender.ZBXD1 ++ le_bytes 8 (N.of_nat (length body)) ->
  x ++ body <> [] ->
  ZabbixSender._create_packet body = Ok (frame body) /\
  concat (pre ++ [x ++ body]) = frame body /\
  ZabbixSender.read_response jl (map RData pre ++ [RData (x ++ body)])
  = decode jl body.
Proof.
  intros Hn Hpre Hh Hne.
  assert (H13 : (length (concat pre) + length x = 13)%nat).
  { rewrite <- length_app, Hh, length_app, length_le_bytes. reflexivity. }
  split; [|split].
  - unfold ZabbixSender._create_packet, frame.
    now destruct (struct_Q_roundtrip Hn) as [-> _].
  - rewrite concat_app. cbn [concat]. rewrite app_nil_r, app_assoc, Hh.
    unfold frame. now rewrite <- app_assoc.
  - change (map RData pre ++ [RData (x ++ body)])
      with (map RData pre ++ map RData [x ++ body]).
    rewrite <- map_app.
    assert (HF : Forall (fun d : bytes => d <> []) (pre ++ [x ++ body])).
    { apply Forall_app. split; [exact Hpre|]. now repeat constructor. }
    assert (HH : firstn 13 (concat (pre ++ [x ++ body]))
                 = ZabbixSender.ZBXD1
                   ++ le_bytes 8 (N.of_nat (length body))).
    { rewrite concat_app. cbn [concat]. rewrite app_nil_r, app_assoc, Hh.
      rewrite firstn_app.
      rewrite firstn_all2
        by (rewrite length_app, length_le_bytes; cbn; lia).
      rewrite length_app, length_le_bytes. cbn [length ZabbixSender.ZBXD1].
      cbn [Nat.sub firstn]. now rewrite app_nil_r. }
    etransitivity; [exact (read_response_frame jl HF Hn HH)|].
    rewrite <- H13, after_bytes_app by exact Hpre.
    rewrite Nat2N.id. now rewrite after_bytes_last.
Qed.


Lemma frame_round_trip_witness :
  ZabbixSender._create_packet [x7b; x7d] = Ok (frame [x7b; x7d]) /\
  concat ([[x5a; x42; x58]; [x44; x01; x02; x00]]
          ++ [[x00; x00; x00; x00; x00; x00] ++ [x7b; x7d]])
  = frame [x7b; x7d] /\
  ZabbixSender.read_response sample_loads
    (map RData [[x5a; x42; x58]; [x44; x01; x02; x00]]
     ++ [RData ([x00; x00; x00; x00; x00; x00] ++ [x7b; x7d])])
  = decode sample_loads [x7b; x7d].
Proof.
  apply (@frame_round_trip sample_loads [x7b; x7d]
           [[x5a; x42; x58]; [x44; x01; x02; x00]]
           [x00; x00; x00; x00; x00; x00]).
  - reflexivity.
  - repeat constructor; discriminate.
  - reflexivity.
  - discriminate.
Defined.

Lemma after_bytes_head x tail more :
  tail <> [] ->
  hd [] (after_bytes (length x) ((x ++ tail) :: more)) = tail.
Proof.
  intros Ht. cbn [after_bytes].
  destruct (Nat.eqb_spec (length x) 0) as [E|E].
  - destruct x; [reflexivity|discriminate].
  - rewrite length_app.
    assert (length tail <> 0)%nat by (destruct tail; cbn; congruence).
    replace (length x + length tail <=? length x)%nat with false
      by (symmetry; apply Nat.leb_gt; lia).
    cbn [hd]. now rewrite skipn_app, skipn_all, Nat.sub_diag.
Qed.

(** X3.  The body is read with one [recv], not with [_receive].  When
    the body of a well-formed frame reaches the client in two pieces,
    only the first piece is handed to the decoder, although the header
    announces both. *)
Theorem split_body_is_cut jl b1 b2 pre x :
  (N.of_nat (length (b1 ++ b2)) < 2 ^ 64)%N ->
  Forall (fun d => d <> []) pre ->
  concat pre ++ x
  = ZabbixSender.ZBXD1 ++ le_bytes 8 (N.of_nat (length (b1 ++ b2))) ->
  b1 <> [] -> b2 <> [] ->
  concat (pre ++ [x ++ b1; b2]) = frame (b1 ++ b2) /\
  ZabbixSender.read_response jl
    (map RData pre ++ [RData (x ++ b1); RData b2])
  = decode jl b1.
Proof.
  intros Hn Hpre Hh H1 H2.
  assert (H13 : (length (concat pre) + length x = 13)%nat).
  { rewrite <- length_app, Hh, length_app, length_le_bytes. reflexivity. }
  split.
  - rewrite concat_app. cbn [concat].
    rewrite app_nil_r, <- (app_assoc x), app_assoc, Hh.
    unfold frame. now rewrite <- app_assoc.
  - change (map RData pre ++ [RData (x ++ b1); RData b2])
      with (map RData pre ++ map RData [x ++ b1; b2]).
    rewrite <- map_app.
    assert (HF : Forall (fun d : bytes => d <> []) (pre ++ [x ++ b1; b2])).
    { apply Forall_app. split; [exact Hpre|].
      repeat constructor; [|exact H2].
      intros E. apply app_eq_nil in E. now destruct E. }
    assert (HH : firstn 13 (concat (pre ++ [x ++ b1; b2]))
                 = ZabbixSender.ZBXD1
                   ++ le_bytes 8 (N.of_nat (length (b1 ++ b2)))).
    { rewrite concat_app. cbn [concat].
      rewrite app_nil_r, <- (app_assoc x), app_assoc, Hh.
      rewrite firstn_app.
      rewrite firstn_all2
        by (rewrite length_app, length_le_bytes; cbn; lia).
      rewrite (length_app ZabbixSender.ZBXD1), length_le_bytes.
      cbn [length ZabbixSender.ZBXD1].
      cbn [Nat.sub Nat.add firstn]. now rewrite app_nil_r. }
    etransitivity; [exact (read_response_frame jl HF Hn HH)|].
    rewrite <- H13, after_bytes_app by exact Hpre.
    rewrite after_bytes_head by exact H1.
    rewrite Nat2N.id, firstn_all2; [reflexivity|].
    rewrite length_app. lia.
Qed.

Lemma split_body_is_cut_witness :
  concat ([[x5a; x42; x58; x44; x01; x02; x00; x00; x00; x00; x00; x00; x00]]
          ++ [[] ++ [x7b]; [x7d]])
  = frame ([x7b] ++ [x7d]) /\
  ZabbixSender.read_response sample_loads
    (map RData
       [[x5a; x42; x58; x44; x01; x02; x00; x00; x00; x00; x00; x00; x00]]
     ++ [RData ([] ++ [x7b]); RData [x7d]])
  = decode sample_loads [x7b].
Proof.
  apply (@split_body_is_cut sample_loads [x7b] [x7d]
           [[x5a; x42; x58; x44; x01; x02; x00; x00; x00; x00; x00; x00; x00]]
           []).
  - reflexivity.
  - repeat constructor; discriminate.
  - reflexivity.
  - discriminate.
  - discriminate.
Defined.

Lemma recv_length s n chunk s' :
  recv s n = (Ok chunk, s') -> (length chunk <= N.to_nat n)%nat.
Proof.
  destruct s as [|[d|e] rest]; cbn; intros E; inversion E; subst; cbn;
    [lia|].
  rewrite length_firstn. lia.
Qed.

Lemma _receive_loop_length count : forall fuel s buf b s',
  (length buf <= N.to_nat count)%nat ->
  ZabbixSender._receive_loop fuel s count buf = Some (Ok b, s') ->
  (length b <= N.to_nat count)%nat.
Proof.
  induction fuel as [|fuel IH]; intros s buf b s' Hb; cbn;
    destruct (N.ltb_spec (N.of_nat (length buf)) count) as [E|E];
    try discriminate; try (intros H; inversion H; subst; exact Hb).
  destruct (recv s (count - N.of_nat (length buf)))
    as [[chunk|e] s1] eqn:Er; [|discriminate].
  apply recv_length in Er.
  destruct chunk as [|c chunk]; [intros H; inversion H; subst; exact Hb|].
  apply IH. rewrite length_app. lia.
Qed.

(** X4.  On every socket, whatever arrives on it and in whatever pieces,
    [_receive] returns at most [count] bytes. *)
Theorem receive_at_most_count s count buf s' :
  ZabbixSender._receive s count = (Ok buf, s') ->
  (length buf <= N.to_nat count)%nat.
Proof.
  unfold ZabbixSender._receive.
  destruct (ZabbixSender._receive_loop (N.to_nat count) s count [])
    as [[r s1]|] eqn:E; intros H; inversion H; subst; [|cbn; lia].
  eapply _receive_loop_length; [|exact E]. cbn. lia.
Qed.

Lemma receive_at_most_count_witness :
  (length [x5a; x42; x58; x44] <= N.to_nat 4)%nat.
Proof.
  apply (@receive_at_most_count
           [RData [x5a; x42]; RData [x58; x44; x01]; RData [x00]] 4
           [x5a; x42; x58; x44] [RData [x01]; RData [x00]]).
  reflexivity.
Defined.

(** ** The batch sender: a chunk size that is not positive *)

(** X5.  [send] does not check [chunk_size].  With a chunk size of zero
    [range] raises [ValueError]; with a negative one the range is empty,
    whatever the number of metrics: [send] returns the all-zero response
    and nothing is sent.  In both cases no connection is opened. *)
Theorem nonpositive_chunk_size jl net dv self metrics w :
  (ZabbixSender.chunk_size self <= 0)%Z ->
  ZabbixSender.send jl net dv self metrics w
  = (if (ZabbixSender.chunk_size self =? 0)%Z then Raise ValueError
     else Ok (ZabbixResponse.mk 0 0 0 ZabbixResponse.Int0 0), w).
Proof.
  intros Hk. unfold ZabbixSender.send, ZabbixSender.chunks, py_range, bind,
    lift.
  set (K := ZabbixSender.chunk_size self) in *.
  destruct (Z.eqb_spec K 0) as [E|E]; [reflexivity|].
  replace (0 <? K)%Z with false by (symmetry; apply Z.ltb_ge; lia).
  cbn [rbind].
  assert (Hq : ((0 - Z.of_nat (length metrics) - K - 1) / - K <= 0)%Z).
  { apply Z.lt_succ_r. apply Z.div_lt_upper_bound; lia. }
  replace (Z.to_nat ((0 - Z.of_nat (length metrics) - K - 1) / - K))
    with 0%nat by lia.
  reflexivity.
Qed.

Lemma nonpositive_chunk_size_witness :
  ZabbixSender.send sample_loads net_a7_b1 ascii_digit
    (ZabbixSender.mk (-1) [server_a]) [sample_metric; sample_metric]
    (mkWorld 0 [])
  = (if (ZabbixSender.chunk_size (ZabbixSender.mk (-1) [server_a]) =? 0)%Z
     then Raise ValueError
     else Ok (ZabbixResponse.mk 0 0 0 ZabbixResponse.Int0 0), mkWorld 0 []).
Proof.
  apply (@nonpositive_chunk_size sample_loads net_a7_b1 ascii_digit
           (ZabbixSender.mk (-1) [server_a]) [sample_metric; sample_metric]
           (mkWorld 0 [])).
  cbn. lia.
Defined.

(** ** The batch sender: what a call does on the network *)

Section Traces.
Variable jl : bytes -> decode_error + pyval.
Variable net : nat -> host_addr -> peer.
Variable dv : N -> option N.

Lemma endpoints_trace packet us : forall r w r' w',
  ZabbixSender.endpoints jl net packet us r w = (Ok r', w') ->
  w' = mkWorld (conns w + length us)
         (trace w ++ endpoint_events (conns w) us packet).
Proof.
  induction us as [|a us IH]; intros r w r' w'; cbn [ZabbixSender.endpoints].
  - unfold ret. intros H. injection H as <- <-. destruct w; cbn.
    now rewrite Nat.add_0_r, app_nil_r.
  - unfold bind.
    destruct (ZabbixSender.exchange jl net packet a w) as [[x|e] w1] eqn:E;
      [|discriminate].
    intros H. apply IH in H. apply exchange_ok in E as [_ ->]. subst w'.
    cbn [after_exchange conns trace length endpoint_events].
    rewrite <- app_assoc. f_equal. lia.
Qed.

Lemma chunk_send_trace self c w r w' :
  ZabbixSender._chunk_send jl net self c w = (Ok r, w') ->
  exists packet,
    packet_of c = Ok packet /\
    w' = mkWorld (conns w + length (ZabbixSender.zabbix_uri self))
           (trace w
            ++ endpoint_events (conns w) (ZabbixSender.zabbix_uri self)
                 packet).
Proof.
  unfold ZabbixSender._chunk_send, packet_of, bind, lift.
  destruct (ZabbixSender._create_request _) as [request|]; [|discriminate].
  cbn [rbind].
  destruct (ZabbixSender._create_packet request) as [packet|];
    [|discriminate].
  destruct (ZabbixSender.endpoints jl net packet _ None w)
    as [[r0|] w1] eqn:E1; [|discriminate].
  apply endpoints_trace in E1.
  destruct r0 as [r0|]; [|discriminate].
  unfold ret. intros H. injection H as <- <-. now exists packet.
Qed.

Lemma send_chunks_trace self cs : forall acc w agg w',
  ZabbixSender.send_chunks jl net dv self cs acc w = (Ok agg, w') ->
  exists packets,
    Forall2 (fun c p => packet_of c = Ok p) cs packets /\
    w' = mkWorld
           (conns w + length cs * length (ZabbixSender.zabbix_uri self))
           (trace w
            ++ run_events (conns w) (ZabbixSender.zabbix_uri self) packets).
Proof.
  induction cs as [|c cs IH]; intros acc w agg w';
    cbn [ZabbixSender.send_chunks].
  - unfold ret. intros H. injection H as <- <-. exists [].
    split; [constructor|]. destruct w; cbn.
    now rewrite Nat.add_0_r, app_nil_r.
  - unfold bind.
    destruct (ZabbixSender._chunk_send jl net self c w)
      as [[r|] w1] eqn:E1; [|discriminate].
    destruct (ZabbixResponse.parse dv acc r) as [[[]|] acc1] eqn:E2;
      [|unfold raise; discriminate].
    intros H. apply chunk_send_trace in E1 as (packet & Hpk & ->).
    apply IH in H as (packets & HF & ->).
    exists (packet :: packets). split; [now constructor|].
    cbn [conns trace length run_events]. rewrite <- app_assoc.
    f_equal. lia.
Qed.

End Traces.

(** X6.  What a [send] that returns has done on the network: for each
    chunk in turn, and within a chunk for each endpoint of [zabbix_uri]
    in turn, one connection was opened, the packet of the chunk sent on
    it, and the connection closed before the next was opened.  Nothing
    else was done, and every endpoint was sent every chunk. *)
Theorem successful_send_trace jl net dv self metrics w agg w' :
  ZabbixSender.send jl net dv self metrics w = (Ok agg, w') ->
  exists cs packets,
    ZabbixSender.chunks self metrics = Ok cs /\
    Forall2 (fun c p => packet_of c = Ok p) cs packets /\
    conns w'
    = (conns w + length cs * length (ZabbixSender.zabbix_uri self))%nat /\
    trace w'
    = trace w ++ run_events (conns w) (ZabbixSender.zabbix_uri self) packets.
Proof.
  unfold ZabbixSender.send, bind, lift.
  destruct (ZabbixSender.chunks self metrics) as [cs|] eqn:Ecs;
    [|discriminate].
  intros H. apply send_chunks_trace in H as (packets & HF & ->).
  exists cs, packets. auto.
Qed.

Lemma successful_send_trace_witness :
  exists cs packets,
    ZabbixSender.chunks (ZabbixSender.mk 2 [server_a; server_b])
      [sample_metric; sample_metric; sample_metric] = Ok cs /\
    Forall2 (fun c p => packet_of c = Ok p) cs packets /\
    conns (after_exchange
             (after_exchange
                (after_exchange
                   (after_exchange (mkWorld 0 []) server_a sample_packet2)
                   server_b sample_packet2)
                server_a sample_packet)
             server_b sample_packet)
    = (conns (mkWorld 0 [])
       + length cs
         * length (ZabbixSender.zabbix_uri
                     (ZabbixSender.mk 2 [server_a; server_b])))%nat /\
    trace (after_exchange
             (after_exchange
                (after_exchange
                   (after_exchange (mkWorld 0 []) server_a sample_packet2)
                   server_b sample_packet2)
                server_a sample_packet)
             server_b sample_packet)
    = trace (mkWorld 0 [])
      ++ run_events (conns (mkWorld 0 []))
           (ZabbixSender.zabbix_uri (ZabbixSender.mk 2 [server_a; server_b]))
           packets.
Proof.
  apply (@successful_send_trace sample_loads net_a7_b1 ascii_digit
           (ZabbixSender.mk 2 [server_a; server_b])
           [sample_metric; sample_metric; sample_metric] (mkWorld 0 [])
           (ZabbixResponse.mk 2 0 2 (ZabbixResponse.Dec (mkDec 84 (-6))) 2)).
  vm_compute. reflexivity.
Defined.

(** ** The batch sender: connections opened and closed *)







Section Balance.
Variable jl : bytes -> decode_error + pyval.
Variable net : nat -> host_addr -> peer.
Variable dv : N -> option N.






End Balance.


(** ** The batch sender: a reply that is not an object *)

Lemma exchange_not_object jl net packet a w v :
  connect_err (net (conns w) a) = None ->
  sendall_err (net (conns w) a) packet = None ->
  ZabbixSender.read_response jl (incoming (net (conns w) a) packet) = Ok v ->
  (forall d, v <> PyDict d) ->
  ZabbixSender.exchange jl net packet a w
  = (if truthy v then Raise AttributeError else Ok v,
     after_exchange w a packet).
Proof.
  intros Hc Hs Hr Hv.
  unfold ZabbixSender.exchange, ZabbixSender._get_response, after_exchange,
    bind, emit, raise, lift, ret.
  cbn [conns trace]. rewrite Hc, Hs, Hr. cbn [conns trace].
  rewrite <- !app_assoc. cbn [app].
  destruct (truthy v); [|reflexivity].
  destruct v; try reflexivity. now destruct (Hv d).
Qed.

(** X8.  The last endpoint of a chunk answers with something that is not
    a JSON object: a list, a number, a string, [null], or the [False]
    that [_get_response] makes of a header that is not valid.  Then
    [send] raises [AttributeError], from [response.get] in [_chunk_send]
    when the reply is truthy and from [response.get] in [parse] when it
    is not; the connection has been closed, no further chunk is sent,
    and the counters of the earlier chunks are lost with the response
    object. *)
Theorem non_object_reply_raises jl net dv self metrics
    cs_pre c cs_post acc w0 w1 us_pre a packet r w2 v :
  ZabbixSender.chunks self metrics = Ok (cs_pre ++ c :: cs_post) ->
  ZabbixSender.send_chunks jl net dv self cs_pre ZabbixResponse.__init__ w0
  = (Ok acc, w1) ->
  ZabbixSender.zabbix_uri self = us_pre ++ [a] ->
  packet_of c = Ok packet ->
  ZabbixSender.endpoints jl net packet us_pre None w1 = (Ok r, w2) ->
  connect_err (net (conns w2) a) = None ->
  sendall_err (net (conns w2) a) packet = None ->
  ZabbixSender.read_response jl (incoming (net (conns w2) a) packet) = Ok v ->
  (forall d, v <> PyDict d) ->
  ZabbixSender.send jl net dv self metrics w0
  = (Raise AttributeError, after_exchange w2 a packet).
Proof.
  intros Hcs Hpre Huri Hpk Hend Hc Hs Hr Hv.
  unfold ZabbixSender.send, bind, lift. rewrite Hcs.
  rewrite send_chunks_app, Hpre.
  cbn [ZabbixSender.send_chunks]. unfold bind.
  apply packet_of_inv in Hpk as (request & Hreq & Hpk).
  unfold ZabbixSender._chunk_send, bind, lift. rewrite Hreq, Hpk, Huri.
  rewrite endpoints_app, Hend. cbn [ZabbixSender.endpoints]. unfold bind.
  rewrite (@exchange_not_object jl net packet a w2 v Hc Hs Hr Hv).
  destruct (truthy v); [reflexivity|].
  unfold ret, raise, ZabbixResponse.parse.
  destruct v; try reflexivity. now destruct (Hv d).
Qed.

Lemma non_object_reply_raises_witness :
  ZabbixSender.send sample_loads
    (fun n _ =>
       if Nat.eqb n 1
       then mkPeer None (fun _ => None)
              (fun _ => [RData [x5a; x42; x58; x44; x02]])
       else answering (reply_text "success" info_1))
    ascii_digit (ZabbixSender.mk 1 [server_a])
    [sample_metric; sample_metric; sample_metric] (mkWorld 0 [])
  = (Raise AttributeError,
     after_exchange (after_exchange (mkWorld 0 []) server_a sample_packet)
       server_a sample_packet).
Proof.
  apply (@non_object_reply_raises sample_loads
           (fun n _ =>
              if Nat.eqb n 1
              then mkPeer None (fun _ => None)
                     (fun _ => [RData [x5a; x42; x58; x44; x02]])
              else answering (reply_text "success" info_1))
           ascii_digit (ZabbixSender.mk 1 [server_a])
           [sample_metric; sample_metric; sample_metric]
           [[sample_metric]] [sample_metric] [[sample_metric]]
           (ZabbixResponse.mk 1 0 1 (ZabbixResponse.Dec (mkDec 42 (-6))) 1)
           (mkWorld 0 [])
           (after_exchange (mkWorld 0 []) server_a sample_packet)
           [] server_a sample_packet None
           (after_exchange (mkWorld 0 []) server_a sample_packet)
           (PyBool false)).
  - vm_compute. reflexivity.
  - vm_compute. reflexivity.
  - reflexivity.
  - vm_compute. reflexivity.
  - reflexivity.
  - reflexivity.
  - reflexivity.
  - vm_compute. reflexivity.
  - discriminate.
Defined.

(** ** The statistics line: what the pattern accepts *)

Section Accepts.
Variable dv : N -> option N.
Hypothesis Hrows : ascii_rows dv.

Lemma accepts_seqs r rs s caps s1 caps1 s2 caps2 :
  accepts dv r s caps s1 caps1 ->
  accepts dv (ZabbixResponse.seqs rs) s1 caps1 s2 caps2 ->
  accepts dv (ZabbixResponse.seqs (r :: rs)) s caps s2 caps2.
Proof.
  intros H1 H2 R k x Hk. cbn. apply H1, H2, Hk.
Qed.

Lemma accepts_nil s caps : accepts dv (ZabbixResponse.seqs []) s caps s caps.
Proof. intros R k x Hk. exact Hk. Qed.

Lemma accepts_chars l : forall s caps,
  accepts dv (fold_right (fun c r => RSeq (RAtom (AChar c)) r) REps l)
    (l ++ s) caps s caps.
Proof.
  induction l as [|c l IH]; intros s caps R k x Hk; cbn; [exact Hk|].
  rewrite N.eqb_refl. now apply IH.
Qed.

Lemma accepts_lit str s caps :
  accepts dv (ZabbixResponse.lit str) (u str ++ s) caps s caps.
Proof. apply accepts_chars. Qed.

Lemma accepts_initial b (U L : string) cu cl s caps :
  u U = [cu] -> u L = [cl] ->
  accepts dv (RAtom (ASet [cu; cl])) (initial b U L ++ s) caps s caps.
Proof.
  intros HU HL R k x Hk. unfold initial. destruct b; rewrite ?HU, ?HL; cbn;
    rewrite N.eqb_refl, ?orb_true_r; exact Hk.
Qed.

Lemma accepts_mark b c s caps :
  c <> 32%N ->
  accepts dv (ROpt (AChar c)) (mark b c ++ u " " ++ s) caps (u " " ++ s) caps.
Proof.
  intros Hc R k x Hk. destruct b; cbn -[N.eqb] in *.
  - rewrite N.eqb_refl. now rewrite Hk.
  - replace (32 =? c)%N with false by (symmetry; apply N.eqb_neq; congruence).
    exact Hk.
Qed.

Lemma accepts_digits ds rest caps :
  all_digits dv ds ->
  (forall c r, rest = c :: r -> dv c = None) ->
  accepts dv (RStar ADigit) (ds ++ rest) caps rest caps.
Proof.
  intros Hd Hr R k x Hk. cbn [rmatch].
  induction Hd as [|c ds Hc Hd IH]; cbn [app star].
  - destruct rest as [|c r]; cbn; [exact Hk|].
    now rewrite (Hr c r eq_refl).
  - cbn [atom_matches]. destruct (dv c); [|congruence]. now rewrite IH.
Qed.

Lemma accepts_group r s caps s' caps' :
  accepts dv r s caps s' caps' ->
  accepts dv (RGroup r) s caps s'
    (caps' ++ [firstn (length s - length s') s]).
Proof.
  intros H R k x Hk. cbn [rmatch]. apply H. exact Hk.
Qed.

Lemma accepts_digit_group ds rest caps :
  all_digits dv ds ->
  (forall c r, rest = c :: r -> dv c = None) ->
  accepts dv (RGroup (RStar ADigit)) (ds ++ rest) caps rest (caps ++ [ds]).
Proof.
  intros Hd Hr.
  replace ds with (firstn (length (ds ++ rest) - length rest) (ds ++ rest))
    at 2.
  - apply accepts_group, accepts_digits; assumption.
  - rewrite length_app, Nat.add_sub, firstn_app, Nat.sub_diag, firstn_all.
    cbn. apply app_nil_r.
Qed.

Lemma stops_at_mark b s c r :
  mark b 59 ++ u " " ++ s = c :: r -> dv c = None.
Proof.
  destruct b; cbn; intros H; injection H as <- _; now rewrite Hrows.
Qed.

Lemma accepts_time si sf caps :
  all_digits dv si -> all_digits dv sf ->
  accepts dv
    (RGroup (ZabbixResponse.seqs
               [RStar ADigit; RAtom (AChar ZabbixResponse.point);
                RStar ADigit]))
    (si ++ u "." ++ sf) caps [] (caps ++ [si ++ u "." ++ sf]).
Proof.
  intros Hi Hf.
  replace (si ++ u "." ++ sf)
    with (firstn (length (si ++ u "." ++ sf) - length (@nil N))
            (si ++ u "." ++ sf)) at 2
    by (cbn [length]; rewrite Nat.sub_0_r; apply firstn_all).
  apply accepts_group.
  eapply accepts_seqs.
  { apply accepts_digits; [exact Hi|].
    cbn. intros c r H. injection H as <- _. now rewrite Hrows. }
  eapply accepts_seqs.
  { intros R k x Hk. cbn. exact Hk. }
  eapply accepts_seqs; [|apply accepts_nil].
  rewrite <- (app_nil_r sf) at 1.
  apply accepts_digits; [exact Hf|]. discriminate.
Qed.

(** The pattern on a statistics line in any of the styles. *)
Lemma pattern_accepts st p f t si sf :
  all_digits dv p -> all_digits dv f -> all_digits dv t ->
  all_digits dv si -> all_digits dv sf ->
  accepts dv ZabbixResponse.pattern (info_text st p f t si sf) []
    [] [p; f; t; si ++ u "." ++ sf].
Proof.
  intros Hp Hf Ht Hi Hs. unfold ZabbixResponse.pattern, info_text.
  repeat
    (eapply accepts_seqs;
     [ first
         [ apply accepts_initial; reflexivity
         | apply accepts_lit
         | apply accepts_mark; discriminate
         | apply accepts_digit_group;
           [assumption | apply stops_at_mark] ] | ]).
  eapply accepts_seqs; [|apply accepts_nil].
  apply (@accepts_time si sf [p; f; t] Hi Hs).
Qed.

Lemma search_info_text st p f t si sf :
  all_digits dv p -> all_digits dv f -> all_digits dv t ->
  all_digits dv si -> all_digits dv sf ->
  search dv ZabbixResponse.pattern (info_text st p f t si sf)
  = Some [p; f; t; si ++ u "." ++ sf].
Proof.
  intros Hp Hf Ht Hi Hs.
  pose proof (@pattern_accepts st p f t si sf Hp Hf Ht Hi Hs
                (list str) (fun _ caps => Some caps) _ eq_refl) as H.
  destruct (info_text st p f t si sf); cbn [search]; now rewrite H.
Qed.

Lemma digits_value_all_digits s : forall acc n,
  digits_value dv acc s = Some n -> all_digits dv s.
Proof.
  induction s as [|c s IH]; intros acc n; cbn; [constructor|].
  destruct (dv c) eqn:E; [|discriminate].
  intros H. constructor; [congruence|]. eapply IH, H.
Qed.

End Accepts.

(** X9.  The pattern finds the four numbers of the statistics line in
    every style the character classes and the question marks allow:
    each label with a capital or a small first letter, each colon and
    each semicolon present or not, each number any run of decimal
    digits (an empty run too).  The groups are the four numbers as
    written. *)
Theorem pattern_finds_every_style dv st p f t si sf :
  ascii_rows dv ->
  all_digits dv p -> all_digits dv f -> all_digits dv t ->
  all_digits dv si -> all_digits dv sf ->
  search dv ZabbixResponse.pattern (info_text st p f t si sf)
  = Some [p; f; t; si ++ u "." ++ sf].
Proof.
  intros Hrows. now apply search_info_text.
Qed.

Lemma pattern_finds_every_style_witness :
  search ascii_digit ZabbixResponse.pattern
    (info_text
       (mkStyle false true false true true false true false true false true)
       (u "12") (u "0") (u "12") (u "0") (u "000345"))
  = Some [u "12"; u "0"; u "12"; u "0" ++ u "." ++ u "000345"].
Proof.
  apply (@pattern_finds_every_style ascii_digit
           (mkStyle false true false true true false true false true false
              true)
           (u "12") (u "0") (u "12") (u "0") (u "000345")).
  - intros c Hc. reflexivity.
  - repeat constructor; discriminate.
  - repeat constructor; discriminate.
  - repeat constructor; discriminate.
  - repeat constructor; discriminate.
  - repeat constructor; discriminate.
Defined.

(** X10.  [parse] is not atomic.  A statistics line whose second number
    is missing still matches the pattern; [int] then raises [ValueError]
    on the empty group, after the first number has been added to
    [_processed]: the response keeps that change, and the other
    counters, the chunk count among them, stay as they were. *)
Theorem parse_is_not_atomic dv self st p t si sf n d :
  ascii_rows dv ->
  p <> [] -> digits_value dv 0 p = Some n ->
  all_digits dv t -> all_digits dv si -> all_digits dv sf ->
  assoc (u "info") d = Some (PyStr (info_text st p [] t si sf)) ->
  ZabbixResponse.parse dv self (PyDict d)
  = (Raise ValueError,
     ZabbixResponse.mk (ZabbixResponse._processed self + Z.of_N n)
       (ZabbixResponse._failed self) (ZabbixResponse._total self)
       (ZabbixResponse._time self) (ZabbixResponse._chunk self)).
Proof.
  intros Hrows Hne Hp Ht Hi Hs Hd.
  unfold ZabbixResponse.parse. cbn [py_get]. rewrite Hd.
  cbn [ZabbixResponse.regex_search].
  rewrite (@search_info_text dv Hrows st p [] t si sf) ;
    try assumption; [|eapply digits_value_all_digits, Hp|constructor].
  cbn [ZabbixResponse.group Nat.sub nth rbind].
  unfold int_of_str at 1. rewrite Hp.
  destruct p as [|c p]; [congruence|].
  cbn [rbind]. reflexivity.
Qed.

Lemma parse_is_not_atomic_witness :
  ZabbixResponse.parse ascii_digit (ZabbixResponse.mk 1 2 3 ZabbixResponse.Int0 4)
    (PyDict
       [(u "info",
         PyStr
           (info_text
              (mkStyle false false false false true true true true true true
                 true)
              (u "5") [] (u "5") (u "0") (u "1")))])
  = (Raise ValueError,
     ZabbixResponse.mk
       (ZabbixResponse._processed
          (ZabbixResponse.mk 1 2 3 ZabbixResponse.Int0 4) + Z.of_N 5)
       (ZabbixResponse._failed (ZabbixResponse.mk 1 2 3 ZabbixResponse.Int0 4))
       (ZabbixResponse._total (ZabbixResponse.mk 1 2 3 ZabbixResponse.Int0 4))
       (ZabbixResponse._time (ZabbixResponse.mk 1 2 3 ZabbixResponse.Int0 4))
       (ZabbixResponse._chunk (ZabbixResponse.mk 1 2 3 ZabbixResponse.Int0 4))).
Proof.
  apply (@parse_is_not_atomic ascii_digit
           (ZabbixResponse.mk 1 2 3 ZabbixResponse.Int0 4)
           (mkStyle false false false false true true true true true true
              true)
           (u "5") (u "5") (u "0") (u "1") 5
           [(u "info",
             PyStr
               (info_text
                  (mkStyle false false false false true true true true true
                     true true)
                  (u "5") [] (u "5") (u "0") (u "1")))]).
  - intros c Hc. reflexivity.
  - discriminate.
  - reflexivity.
  - repeat constructor; discriminate.
  - repeat constructor; discriminate.
  - repeat constructor; discriminate.
  - reflexivity.
Defined.

(** ** The configuration file *)

Lemma has_char_false c s : Config.has_char c s = false <-> ~ In c s.
Proof.
  unfold Config.has_char. split.
  - intros H Hin. assert (existsb (N.eqb c) s = true); [|congruence].
    apply existsb_exists. exists c. split; [exact Hin|apply N.eqb_refl].
  - intros H. destruct (existsb (N.eqb c) s) eqn:E; [|reflexivity].
    apply existsb_exists in E as (x & Hx & Ex). apply N.eqb_eq in Ex.
    subst. contradiction.
Qed.

Lemma has_char_app c a b :
  Config.has_char c (a ++ b) = Config.has_char c a || Config.has_char c b.
Proof. apply existsb_app. Qed.

Lemma split_no_sep sep s :
  Config.has_char sep s = false -> Config.split sep s = [s].
Proof.
  induction s as [|c s IH]; [reflexivity|].
  cbn. intros H. apply orb_false_iff in H as [H1 H2].
  rewrite N.eqb_sym, H1. fold (Config.has_char sep s) in H2.
  now rewrite (IH H2).
Qed.

Lemma split_app sep a b :
  Config.has_char sep a = false ->
  Config.split sep (a ++ sep :: b) = a :: Config.split sep b.
Proof.
  induction a as [|c a IH]; cbn.
  - intros _. now rewrite N.eqb_refl.
  - intros H. apply orb_false_iff in H as [H1 H2].
    rewrite N.eqb_sym, H1. fold (Config.has_char sep a) in H2.
    now rewrite (IH H2).
Qed.

Lemma split_join sep l :
  l <> [] -> Forall (fun s => Config.has_char sep s = false) l ->
  Config.split sep (join [sep] l) = l.
Proof.
  induction l as [|x l IH]; [congruence|].
  intros _ Hl. inversion Hl as [|? ? Hx Hl']; subst.
  destruct l as [|y l]; [now apply split_no_sep|].
  change (join [sep] (x :: y :: l)) with (x ++ sep :: join [sep] (y :: l)).
  rewrite split_app by exact Hx. f_equal. apply IH; [discriminate|exact Hl'].
Qed.

Lemma split_length sep s :
  length (Config.split sep s) = S (count_occ N.eq_dec s sep).
Proof.
  induction s as [|c s IH]; [reflexivity|].
  cbn [Config.split count_occ].
  destruct (N.eqb_spec c sep) as [->|E].
  - destruct (N.eq_dec sep sep); [|congruence]. cbn. now rewrite IH.
  - destruct (N.eq_dec c sep); [congruence|].
    destruct (Config.split sep s); cbn in *; [discriminate|exact IH].
Qed.

Lemma count_occ_has_char c s :
  (1 <= count_occ N.eq_dec s c)%nat -> Config.has_char c s = true.
Proof.
  intros H. destruct (Config.has_char c s) eqn:E; [reflexivity|].
  apply has_char_false in E.
  apply (count_occ_not_In N.eq_dec) in E. lia.
Qed.

Section Loading.
Variable is_space : N -> bool.
Variable builtin_int : str -> option Z.
Variable open_read : pyval -> oserror + str.
Variable config_get : str -> nat + str.

Lemma In_lstrip c s : In c (Config.lstrip is_space s) -> In c s.
Proof.
  induction s as [|x s IH]; cbn; [auto|].
  destruct (is_space x); cbn; auto.
Qed.

Lemma has_char_strip c s :
  Config.has_char c s = false ->
  Config.has_char c (Config.strip is_space s) = false.
Proof.
  rewrite !has_char_false. intros H Hin. apply H. unfold Config.strip in Hin.
  apply in_rev, In_lstrip, in_rev, In_lstrip in Hin. exact Hin.
Qed.

Lemma serverport_entry e :
  builtin_int (u "10051") = Some 10051%Z ->
  entry_ok builtin_int e ->
  Config.serverport is_space builtin_int (entry_text e)
  = inr (entry_endpoint is_space e).
Proof.
  intros H10051 (Hh & _ & Hp). destruct e as [h [[port p]|]];
    unfold Config.serverport, entry_text, entry_endpoint; cbn [fst snd] in *.
  - destruct Hp as (Hpc & _ & Hint).
    rewrite has_char_app. change (u ":" ++ port) with (58%N :: port).
    cbn [Config.has_char existsb]. rewrite N.eqb_refl.
    rewrite orb_true_r. cbn [negb orb].
    rewrite split_app by exact Hh. rewrite split_no_sep by exact Hpc.
    now rewrite Hint.
  - rewrite Hh. cbn [negb].
    change (u ":" ++ int_str 10051) with (58%N :: u "10051").
    rewrite split_app by (apply has_char_strip; exact Hh).
    rewrite split_no_sep by reflexivity.
    now rewrite H10051.
Qed.

Lemma serverports_entries es :
  builtin_int (u "10051") = Some 10051%Z ->
  Forall (entry_ok builtin_int) es ->
  Config.serverports is_space builtin_int (map entry_text es)
  = inr (map (entry_endpoint is_space) es).
Proof.
  intros H10051 Hes. induction Hes as [|e es He Hes IH]; [reflexivity|].
  cbn [map Config.serverports].
  rewrite (serverport_entry H10051 He). cbn [Config.cbind].
  now rewrite IH.
Qed.

Lemma entry_text_no_comma e :
  entry_ok builtin_int e -> Config.has_char 44 (entry_text e) = false.
Proof.
  intros (_ & Hh & Hp). destruct e as [h [[port p]|]];
    unfold entry_text; cbn [fst snd] in *; [|exact Hh].
  destruct Hp as (_ & Hpc & _).
  rewrite has_char_app, Hh. change (u ":" ++ port) with (58%N :: port).
  cbn [Config.has_char existsb orb]. exact Hpc.
Qed.

Lemma serverports_length es : forall uris,
  Config.serverports is_space builtin_int es = inr uris ->
  length uris = length es.
Proof.
  induction es as [|e es IH]; intros uris; cbn [Config.serverports].
  - intros H. now injection H as <-.
  - destruct (Config.serverport is_space builtin_int e); [discriminate|].
    cbn [Config.cbind].
    destruct (Config.serverports is_space builtin_int es) as [|r];
      [discriminate|].
    cbn [Config.cbind]. intros H. injection H as <-. cbn.
    now rewrite (IH r eq_refl).
Qed.

Lemma serverports_fails es e x :
  In e es -> Config.serverport is_space builtin_int e = inl x ->
  exists err, Config.serverports is_space builtin_int es = inl err.
Proof.
  intros Hin Hx. induction es as [|e' es IH]; [contradiction|].
  cbn [Config.serverports].
  destruct Hin as [->|Hin].
  - rewrite Hx. now exists x.
  - destruct (Config.serverport is_space builtin_int e') as [err|a];
      [now exists err|].
    cbn [Config.cbind]. destruct (IH Hin) as (err & ->). now exists err.
Qed.

Lemma serverport_two_colons e :
  (2 <= count_occ N.eq_dec e 58%N)%nat ->
  Config.serverport is_space builtin_int e = inl Config.ValueError_unpack.
Proof.
  intros H. unfold Config.serverport.
  rewrite count_occ_has_char by lia. cbn [negb].
  pose proof (split_length 58 e) as Hl.
  destruct (Config.split 58 e) as [|a [|b [|c l]]]; cbn in Hl; try lia;
    reflexivity.
Qed.

End Loading.

(** X11.  What [_load_from_config] makes of a [ServerActive] value that
    is a list of entries separated by commas, each a host alone or a
    host, a colon and a port that [int] reads: one endpoint for each
    entry, in the order of the file.  An entry without a port gets the
    port 10051 and its host is stripped of white space at both ends; an
    entry with a port keeps its host as it is written, white space
    included. *)
Theorem load_from_config_endpoints is_space builtin_int open_read config_get
    config_file data (entries : list entry) :
  config_file <> PyBool true ->
  open_read config_file = inr data ->
  config_get (u "[root]" ++ [10%N] ++ data)
  = inr (join (u ",") (map entry_text entries)) ->
  entries <> [] ->
  builtin_int (u "10051") = Some 10051%Z ->
  Forall (entry_ok builtin_int) entries ->
  Config._load_from_config is_space builtin_int open_read config_get
    config_file
  = inr (map (entry_endpoint is_space) entries).
Proof.
  intros Hcf Hopen Hget Hne H10051 Hok.
  assert (H : Config._load_from_config is_space builtin_int open_read
                config_get config_file
              = Config.serverports is_space builtin_int
                  (Config.split 44 (join (u ",") (map entry_text entries)))).
  { unfold Config._load_from_config. rewrite Hopen, Hget.
    destruct config_file as [|[]| | | | |]; try reflexivity. congruence. }
  rewrite H. change (u ",") with [44%N]. rewrite split_join.
  - now apply serverports_entries.
  - destruct entries; [congruence|discriminate].
  - apply Forall_map. eapply Forall_impl; [|exact Hok].
    intros e. apply entry_text_no_comma.
Qed.

Lemma load_from_config_endpoints_witness :
  Config._load_from_config (fun c => (c =? 32)%N)
    (fun s => if str_eqb s (u "10051") then Some 10051%Z
              else if str_eqb s (u "10052") then Some 10052%Z else None)
    (fun _ => inr (u "ServerActive= zbx-a , zbx-b:10052")) (fun _ => inr
       (join (u ",")
          (map entry_text
             [(u "zbx-a ", None); (u " zbx-b", Some (u "10052", 10052%Z))])))
    (PyStr (u "/etc/zabbix/zabbix_agentd.conf"))
  = inr (map (entry_endpoint (fun c => (c =? 32)%N))
           [(u "zbx-a ", None); (u " zbx-b", Some (u "10052", 10052%Z))]).
Proof.
  apply (@load_from_config_endpoints (fun c => (c =? 32)%N)
           (fun s => if str_eqb s (u "10051") then Some 10051%Z
                     else if str_eqb s (u "10052") then Some 10052%Z
                          else None)
           (fun _ => inr (u "ServerActive= zbx-a , zbx-b:10052"))
           (fun _ => inr
              (join (u ",")
                 (map entry_text
                    [(u "zbx-a ", None);
                     (u " zbx-b", Some (u "10052", 10052%Z))])))
           (PyStr (u "/etc/zabbix/zabbix_agentd.conf"))
           (u "ServerActive= zbx-a , zbx-b:10052")
           [(u "zbx-a ", None); (u " zbx-b", Some (u "10052", 10052%Z))]).
  - discriminate.
  - reflexivity.
  - reflexivity.
  - discriminate.
  - reflexivity.
  - repeat constructor.
Defined.

(** X12.  An entry of [ServerActive] with two colons or more, as an IPv6
    address has them, cannot be loaded: the assignment to
    [server, port] raises, and so does [_load_from_config], whatever
    the other entries are. *)
Theorem entry_with_two_colons_fails is_space builtin_int open_read config_get
    config_file data value e :
  open_read config_file = inr data ->
  config_get (u "[root]" ++ [10%N] ++ data) = inr value ->
  In e (Config.split 44 value) ->
  (2 <= count_occ N.eq_dec e 58%N)%nat ->
  Config.serverport is_space builtin_int e = inl Config.ValueError_unpack /\
  exists err,
    Config._load_from_config is_space builtin_int open_read config_get
      config_file = inl err.
Proof.
  intros Hopen Hget Hin Hc.
  pose proof (serverport_two_colons is_space builtin_int e Hc) as He.
  split; [exact He|].
  destruct (serverports_fails is_space builtin_int _ _ Hin He) as (err & H).
  unfold Config._load_from_config. rewrite Hopen, Hget, H.
  destruct config_file as [|[]| | | | |]; eauto.
Qed.

Lemma entry_with_two_colons_fails_witness :
  Config.serverport (fun c => (c =? 32)%N) (fun _ => Some 10051%Z)
    (u "[::1]:10051") = inl Config.ValueError_unpack /\
  exists err,
    Config._load_from_config (fun c => (c =? 32)%N) (fun _ => Some 10051%Z)
      (fun _ => inr (u "ServerActive=zbx-a,[::1]:10051"))
      (fun _ => inr (u "zbx-a,[::1]:10051"))
      (PyStr (u "agentd.conf")) = inl err.
Proof.
  apply (@entry_with_two_colons_fails (fun c => (c =? 32)%N)
           (fun _ => Some 10051%Z)
           (fun _ => inr (u "ServerActive=zbx-a,[::1]:10051"))
           (fun _ => inr (u "zbx-a,[::1]:10051"))
           (PyStr (u "agentd.conf"))
           (u "ServerActive=zbx-a,[::1]:10051")
           (u "zbx-a,[::1]:10051") (u "[::1]:10051")).
  - reflexivity.
  - reflexivity.
  - cbn. auto.
  - cbn. lia.
Defined.

(** X13.  The endpoints of a sender that [__init__] has built.  The
    chunk size is the argument, unchecked.  There is at least one
    endpoint, whether the list is the pair of the arguments or comes
    from the configuration file: the loop of [_chunk_send] is entered,
    and [response] is bound when it ends.  And the sender was not built
    with [use_config=True]: on that path the default files are probed
    through [os], a name the module does not import. *)
Theorem constructed_sender_has_endpoints is_space builtin_int open_read
    config_get zabbix_server zabbix_port use_config chunk_size self :
  Config.__init__ is_space builtin_int open_read config_get
    zabbix_server zabbix_port use_config chunk_size = inr self ->
  ZabbixSender.chunk_size self = chunk_size /\
  ZabbixSender.zabbix_uri self <> [] /\
  use_config <> PyBool true /\
  (truthy use_config = false ->
   ZabbixSender.zabbix_uri self = [(zabbix_server, zabbix_port)]).
Proof.
  unfold Config.__init__. destruct (truthy use_config) eqn:Et.
  - destruct (Config._load_from_config is_space builtin_int open_read
                config_get use_config) as [err|uri] eqn:El;
      [discriminate|].
    cbn [Config.cbind]. intros H. injection H as <-.
    cbn [ZabbixSender.chunk_size ZabbixSender.zabbix_uri].
    assert (Hu : uri <> [] /\ use_config <> PyBool true).
    { unfold Config._load_from_config in El.
      assert (Hs : forall v, Config.serverports is_space builtin_int
                               (Config.split 44 v) = inr uri -> uri <> []).
      { intros v Hv. apply serverports_length in Hv.
        rewrite split_length in Hv. destruct uri; [discriminate|congruence]. }
      destruct (open_read use_config) as [e|data];
        [destruct use_config as [|[]| | | | |]; discriminate|].
      destruct (config_get (u "[root]" ++ [10%N] ++ data)) as [code|value];
        [destruct use_config as [|[]| | | | |]; discriminate|].
      destruct use_config as [|[]| | | | |]; try discriminate;
        (split; [eapply Hs, El | discriminate]). }
    destruct Hu as [Hu1 Hu2]. repeat split; auto. discriminate.
  - intros H. injection H as <-.
    cbn [ZabbixSender.chunk_size ZabbixSender.zabbix_uri].
    repeat split; auto; [discriminate|].
    intros ->. discriminate.
Qed.

Lemma constructed_sender_has_endpoints_witness :
  ZabbixSender.chunk_size (ZabbixSender.mk 250 [(u "zbx-a", 10051%Z)]) = 250%Z /\
  ZabbixSender.zabbix_uri (ZabbixSender.mk 250 [(u "zbx-a", 10051%Z)]) <> [] /\
  PyStr (u "agentd.conf") <> PyBool true /\
  (truthy (PyStr (u "agentd.conf")) = false ->
   ZabbixSender.zabbix_uri (ZabbixSender.mk 250 [(u "zbx-a", 10051%Z)])
   = [(u "127.0.0.1", 10051%Z)]).
Proof.
  apply (@constructed_sender_has_endpoints (fun c => (c =? 32)%N)
           (fun _ => Some 10051%Z)
           (fun _ => inr (u "ServerActive=zbx-a"))
           (fun _ => inr (u "zbx-a"))
           (u "127.0.0.1") 10051%Z (PyStr (u "agentd.conf")) 250%Z
           (ZabbixSender.mk 250 [(u "zbx-a", 10051%Z)])).
  reflexivity.
Defined.

(** X14.  The number of endpoints [_load_from_config] returns is the
    number of commas of the [ServerActive] value and one: an empty
    entry, as a comma at the end leaves one, is an endpoint too. *)
Theorem loaded_endpoint_count is_space builtin_int open_read config_get
    config_file data value uris :
  open_read config_file = inr data ->
  config_get (u "[root]" ++ [10%N] ++ data) = inr value ->
  Config._load_from_config is_space builtin_int open_read config_get
    config_file = inr uris ->
  length uris = S (count_occ N.eq_dec value 44%N).
Proof.
  intros Hopen Hget. unfold Config._load_from_config. rewrite Hopen, Hget.
  intros H.
  assert (Hs : Config.serverports is_space builtin_int
                 (Config.split 44 value) = inr uris)
    by (destruct config_file as [|[]| | | | |]; try discriminate; exact H).
  apply serverports_length in Hs. now rewrite split_length in Hs.
Qed.

Lemma loaded_endpoint_count_witness :
  length [(u "zbx-a", 10051%Z); ([], 10051%Z)]
  = S (count_occ N.eq_dec (u "zbx-a,") 44%N).
Proof.
  apply (@loaded_endpoint_count (fun c => (c =? 32)%N)
           (fun _ => Some 10051%Z)
           (fun _ => inr (u "ServerActive=zbx-a,"))
           (fun _ => inr (u "zbx-a,"))
           (PyStr (u "agentd.conf")) (u "ServerActive=zbx-a,")
           (u "zbx-a,") [(u "zbx-a", 10051%Z); ([], 10051%Z)]).
  - reflexivity.
  - reflexivity.
  - reflexivity.
Defined.

